(** * OpenXR-CTS scripts: check_spec_links.py and check-offsets.py

    A shallow embedding of the OpenXR configuration of the specification
    link checker ([specification/scripts/check_spec_links.py]) and of the
    reflection-section reader of the PBR offset check
    ([src/conformance/framework/pbr/check-offsets.py]), with the
    properties their specification states about them.

    Python values are modelled as follows: [str] as [string], a [set] as a
    [gset], a [dict] keyed by strings as a [gmap string _], [None]-able
    values as [option], an [Enum] as an inductive type, an object with
    mutable attributes as a record threaded through the calls, a raised
    exception as the left summand of the result. *)

From Stdlib Require Import String Ascii ZArith DecimalString DecimalPos DecimalN.
From stdpp Require Import gmap strings list fin_maps sorting.

Local Open Scope string_scope.

(** ** Python exceptions and the result of a call *)

Inductive PyExc : Type :=
  | KeyError
  | ValueError
  | RuntimeError.

(** The result of a call that can raise. *)
Definition result (A : Type) : Type := PyExc + A.

Definition ok {A : Type} (a : A) : result A := inr a.
Definition raise {A : Type} (e : PyExc) : result A := inl e.

#[global] Instance result_ret : MRet result := λ A a, inr a.

#[global] Instance result_bind : MBind result := λ A B k r,
  match r with
  | inl e => inl e
  | inr a => k a
  end.

(** [for x in xs: acc = body(acc, x)], stopping at the first exception. *)
Fixpoint for_each {A X : Type} (body : A → X → result A) (xs : list X) (acc : A)
  : result A :=
  match xs with
  | [] => ok acc
  | x :: xs' => acc' ← body acc x; for_each body xs' acc'
  end.

(** * specification/scripts/check_spec_links.py *)

Module CheckSpecLinks.

(** ** "Configuration" constants *)

Definition EXTRA_DEFINES : list string :=
  ["XRAPI_ATTR"; "XRAPI_CALL"; "XRAPI_PTR"; "XR_NO_STDINT_H"].

(** [set((...))]: the set built from the tuple of names. *)
Definition SYSTEM_TYPES : gset string :=
  list_to_set ["void"; "char"; "float"; "size_t";
               "intptr_t"; "uintptr_t";
               "int8_t"; "uint8_t";
               "int16_t"; "uint16_t";
               "int32_t"; "uint32_t";
               "int64_t"; "uint64_t"].


(** ** spec_tools.shared.MessageId *)

(** Modelled from the spec: the catalog of diagnostic kinds, [MessageId],
    which is declared in [spec_tools/shared.py], outside the scripts
    embedded here. The script names three of its members; they are
    constructors. Every other member of the catalog is an [OTHER_MESSAGE],
    and which of those exist is a parameter ([other_messages] below). *)
Inductive MessageId : Type :=
  | LEGACY
  | REFPAGE_BLOCK
  | REFPAGE_MISSING
  | OTHER_MESSAGE (name : string).

#[global] Instance MessageId_eq_dec : EqDecision MessageId.
Proof. solve_decision. Defined.

Definition MessageId_encode (m : MessageId) : nat + string :=
  match m with
  | LEGACY => inl 0
  | REFPAGE_BLOCK => inl 1
  | REFPAGE_MISSING => inl 2
  | OTHER_MESSAGE name => inr name
  end.

Definition MessageId_decode (c : nat + string) : MessageId :=
  match c with
  | inl 0 => LEGACY
  | inl 1 => REFPAGE_BLOCK
  | inl _ => REFPAGE_MISSING
  | inr name => OTHER_MESSAGE name
  end.

#[global] Instance MessageId_countable : Countable MessageId.
Proof.
  refine (inj_countable' MessageId_encode MessageId_decode _).
  intros []; reflexivity.
Defined.

Definition DEFAULT_DISABLED_MESSAGES : gset MessageId :=
  list_to_set [REFPAGE_MISSING].

(** [s.remove(x)]: raises [KeyError] when [x] is not in the set. *)
Definition set_remove `{Countable A} (x : A) (s : gset A) : result (gset A) :=
  if decide (x ∈ s) then ok (s ∖ {[x]}) else raise KeyError.

(** ** The registry element a type declaration carries

    [info.elem] is an XML element; [elem.get(key)] is its attribute lookup,
    [None] when the attribute is absent. *)

Record Element : Type := mkElement {
  tag : string;
  attrib : gmap string string
}.

Definition Element_get (e : Element) (key : string) : option string :=
  attrib e !! key.

Record TypeInfo : Type := mkTypeInfo {
  elem : Element
}.

(** ** spec_tools.entity_db.EntityDatabase (base class) *)

(** Modelled from the spec: the entity record of [EntityDatabase], which is
    declared in [spec_tools/entity_db.py], outside the scripts embedded here.
    An entity has a name, a macro kind, a category, a [generates] flag
    ([None] when the caller leaves it to the base class) and an optional
    registry element backing it. *)
Record EntityData : Type := mkEntityData {
  entity : string;
  macro : string;
  category : string;
  generates : option bool;
  entity_elem : option Element
}.

(** Modelled from the spec: a macro registration of [EntityDatabase]: the
    categories the macro kind is valid for, and whether it is a link. *)
Record MacroData : Type := mkMacroData {
  macro_categories : list string;
  macro_link : bool
}.

(** Modelled from the spec: the state of an [EntityDatabase] object: the
    entities by name (names are unique) and the registered macros by kind. *)
Record EntityDatabase : Type := mkEntityDatabase {
  entities : gmap string EntityData;
  macros : gmap string MacroData
}.

Definition emptyDatabase : EntityDatabase :=
  {| entities := ∅; macros := ∅ |}.

(** Modelled from the spec: [EntityDatabase.getEntity], a method of the
    base class. [getEntity(name)] is the entity or absent. *)
Definition getEntity (name : string) (db : EntityDatabase) : option EntityData :=
  entities db !! name.

(** Modelled from the spec: [EntityDatabase.addMacro], a method of the
    base class. [addMacro(macroKind, categories, isLink)] registers that
    [macroKind] is the valid way to reference entities in any of
    [categories]. *)
Definition addMacro (macroKind : string) (categories : list string) (link : bool)
    (db : EntityDatabase) : EntityDatabase :=
  {| entities := entities db;
     macros := <[macroKind := mkMacroData categories link]> (macros db) |}.

(** Modelled from the spec: [EntityDatabase.addEntity], a method of the
    base class. [addEntity(name, macroKind, category, generates,
    sourceElement?)] registers an entity, failing (logged, not fatal) if
    [name] is already registered with a conflicting category: the database
    is then left as it is. *)
Definition addEntity (name macroKind : string) (cat : string)
    (elem : option Element) (generates : option bool)
    (db : EntityDatabase) : EntityDatabase :=
  let register :=
    {| entities :=
         <[name := mkEntityData name macroKind cat generates elem]> (entities db);
       macros := macros db |} in
  match entities db !! name with
  | Some e => if decide (category e = cat) then register else db
  | None => register
  end.

(** Which macro kinds are registered for a category. *)
Definition macroRegisteredFor (macroKind cat : string) (db : EntityDatabase) : Prop :=
  ∃ m, macros db !! macroKind = Some m ∧ cat ∈ macro_categories m.

(** ** class XREntityDatabase(EntityDatabase) *)

Section XREntityDatabase.

(** [super().handleType]: the method of the base class is a parameter. *)
Variable super_handleType :
  string → TypeInfo → option string → EntityDatabase → EntityDatabase.

Definition getNamePrefix (self : EntityDatabase) : string := "xr".

Definition getPlatformRequires (self : EntityDatabase) : string :=
  "openxr_platform_defines".

Definition getSystemTypes (self : EntityDatabase) : gset string := SYSTEM_TYPES.

Definition populateMacros (self : EntityDatabase) : EntityDatabase :=
  let self := addMacro "elink" ["enums"; "flags"] true self in
  addMacro "basetype" ["basetypes"] true self.

(** [for name in EXTRA_DEFINES: self.addEntity(name, 'dlink',
    category='configdefines', generates=False)] *)
Definition populateEntities (self : EntityDatabase) : EntityDatabase :=
  fold_left
    (λ self name, addEntity name "dlink" "configdefines" None (Some false) self)
    EXTRA_DEFINES self.

Definition handleType (name : string) (info : TypeInfo) (requires : option string)
    (self : EntityDatabase) : EntityDatabase :=
  let cat := Element_get (elem info) "category" in
  if decide (cat = Some "bitmask") then
    addEntity name "elink" "flags" (Some (elem info)) None self
  else
    super_handleType name info requires self.

End XREntityDatabase.

(** ** spec_tools.macro_checker_file (base class of the per-document checker) *)

(** Modelled from the spec: the kinds of block, [BlockType], declared in
    [spec_tools/macro_checker_file.py], outside the scripts embedded here.
    The script names one member; the other kinds are [OTHER_BLOCK]. *)
Inductive BlockType : Type :=
  | REF_PAGE_LIKE
  | OTHER_BLOCK (name : string).

#[global] Instance BlockType_eq_dec : EqDecision BlockType.
Proof. solve_decision. Defined.

(** Modelled from the spec: where a diagnostic or a block was found. *)
Record MessageContext : Type := mkMessageContext {
  ctx_filename : string;
  ctx_lineNum : nat
}.

(** Modelled from the spec: the severity of a diagnostic. *)
Inductive MessageType : Type :=
  | ERROR
  | WARNING.

(** Modelled from the spec: a diagnostic record: kind, severity, location
    context, explanation lines and optional group. *)
Record Message : Type := mkMessage {
  message_id : MessageId;
  message_type : MessageType;
  message_context : MessageContext;
  message : list string;
  group : option string
}.

(** Modelled from the spec: a parsed document block: its type, the marker
    that opened it, a context, and for reference-page blocks the entity
    the block documents. *)
Record Block : Type := mkBlock {
  block_type : BlockType;
  refpage : option string;
  context : option MessageContext;
  delimiter : option string
}.

(** Modelled from the spec: the result of parsing a reference-page tag
    line, a tag naming the entity the page documents. The tag syntax is a
    collaborator's concern; the checker only consumes this result. *)
Record RefPageTag : Type := mkRefPageTag {
  tag_refpage : string
}.

(** Modelled from the spec: the attributes of a [MacroCheckerFile] object
    (the per-document scan state): the location of the scan, the stack of
    open blocks (innermost first), the reference-page context and the
    diagnostics produced so far. *)
Record MacroCheckerFile : Type := mkMacroCheckerFile {
  filename : string;
  lineNum : nat;
  block_stack : list Block;
  current_ref_page : option string;
  prev_line_ref_page_tag : option RefPageTag;
  in_ref_page : bool;
  messages : list Message
}.

(** Attribute assignments [self.attr = v]. *)
Definition set_lineNum (v : nat) (self : MacroCheckerFile) : MacroCheckerFile :=
  mkMacroCheckerFile (filename self) v (block_stack self) (current_ref_page self)
    (prev_line_ref_page_tag self) (in_ref_page self) (messages self).

Definition set_block_stack (v : list Block) (self : MacroCheckerFile)
  : MacroCheckerFile :=
  mkMacroCheckerFile (filename self) (lineNum self) v (current_ref_page self)
    (prev_line_ref_page_tag self) (in_ref_page self) (messages self).

Definition set_current_ref_page (v : option string) (self : MacroCheckerFile)
  : MacroCheckerFile :=
  mkMacroCheckerFile (filename self) (lineNum self) (block_stack self) v
    (prev_line_ref_page_tag self) (in_ref_page self) (messages self).

Definition set_prev_line_ref_page_tag (v : option RefPageTag)
    (self : MacroCheckerFile) : MacroCheckerFile :=
  mkMacroCheckerFile (filename self) (lineNum self) (block_stack self)
    (current_ref_page self) v (in_ref_page self) (messages self).

Definition set_in_ref_page (v : bool) (self : MacroCheckerFile) : MacroCheckerFile :=
  mkMacroCheckerFile (filename self) (lineNum self) (block_stack self)
    (current_ref_page self) (prev_line_ref_page_tag self) v (messages self).

Definition set_messages (v : list Message) (self : MacroCheckerFile)
  : MacroCheckerFile :=
  mkMacroCheckerFile (filename self) (lineNum self) (block_stack self)
    (current_ref_page self) (prev_line_ref_page_tag self) (in_ref_page self) v.

(** Python truth value of [self.prev_line_ref_page_tag]: [None] is false,
    a tag object is true. *)
Definition truthy (t : option RefPageTag) : bool :=
  match t with
  | Some _ => true
  | None => false
  end.

(** Modelled from the spec: [MacroCheckerFile.error], a method of the base
    class. It appends one error diagnostic of the given kind, located at
    the line being scanned, to the document's diagnostics; it does not
    raise. *)
Definition error (id : MessageId) (messageLines : list string)
    (group : option string) (self : MacroCheckerFile) : result MacroCheckerFile :=
  let here := mkMessageContext (filename self) (lineNum self) in
  ok (set_messages
        (messages self ++ [mkMessage id ERROR here messageLines group]) self).

(** Modelled from the spec: [MacroCheckerFile.pushBlock], a method of the
    base class. It pushes a block with the given type, reference page,
    context and delimiter on the stack; it does not raise. *)
Definition pushBlock (block_type : BlockType) (refpage : option string)
    (context : option MessageContext) (delimiter : option string)
    (self : MacroCheckerFile) : result MacroCheckerFile :=
  ok (set_block_stack
        (mkBlock block_type refpage context delimiter :: block_stack self) self).

(** Modelled from the spec: [MacroCheckerFile.processBlockOpen], the method
    of the base class that the subclass extends. A reference-page-like block whose
    previous line carried a tag is pushed with [refpage] set to the tagged
    entity name, and [in_ref_page] is set; any other block is pushed with
    its declared type, context and delimiter. *)
Definition super_processBlockOpen (block_type : BlockType)
    (context : option MessageContext) (delimiter : option string)
    (self : MacroCheckerFile) : result MacroCheckerFile :=
  match block_type, prev_line_ref_page_tag self with
  | REF_PAGE_LIKE, Some t =>
      self ← pushBlock block_type (Some (tag_refpage t)) context delimiter self;
      ok (set_in_ref_page true self)
  | _, _ => pushBlock block_type None context delimiter self
  end.

(** ** class XRMacroCheckerFile(MacroCheckerFile) *)

Definition processBlockOpen (block_type : BlockType)
    (context : option MessageContext) (delimiter : option string)
    (self : MacroCheckerFile) : result MacroCheckerFile :=
  (* OpenXR only uses '--' blocks for ref pages. *)
  if bool_decide (block_type = REF_PAGE_LIKE)
     && negb (truthy (prev_line_ref_page_tag self))
  then
    self ← error REFPAGE_BLOCK
      ["Found a line containing only -- outside of a reference page block, not preceded by a reference page tag,";
       "Pretending there was one and opening refpage block for unknown entity anyway, for more readable messages."]
      None self;
    let self := set_current_ref_page (Some "?missing-refpage-tag?") self in
    let self := set_prev_line_ref_page_tag None self in
    let self := set_in_ref_page true self in
    (* Manually pushing the block here, to force a refpage block. *)
    pushBlock block_type (current_ref_page self) context delimiter self
  else
    (* Everything else about block opening is standard. *)
    super_processBlockOpen block_type context delimiter self.

Definition computeExpectedRefPageFromInclude (self : MacroCheckerFile)
    (entity : string) : string :=
  entity.

(** ** spec_tools.macro_checker (the checker and its line scanner)

    [MacroChecker] and the line scanning of [MacroCheckerFile] are declared
    in [spec_tools], outside the scripts embedded here. They are modelled
    from the specification's description of the per-document algorithm.
    What the description leaves to collaborators (how a line is recognised
    as a delimiter or a tag line, how macro invocations on a line are found
    and resolved) is a parameter. *)

(** A checker-file class, as it is handed to [MacroChecker]: the methods a
    subclass of [MacroCheckerFile] can override. *)
Record CheckerFileClass : Type := mkCheckerFileClass {
  cls_processBlockOpen :
    BlockType → option MessageContext → option string →
    MacroCheckerFile → result MacroCheckerFile;
  cls_computeExpectedRefPageFromInclude : MacroCheckerFile → string → string
}.

Definition XRMacroCheckerFile : CheckerFileClass :=
  {| cls_processBlockOpen := processBlockOpen;
     cls_computeExpectedRefPageFromInclude := computeExpectedRefPageFromInclude |}.

(** Modelled from the spec: a [MacroChecker] object: its configuration and
    the diagnostics of the documents it has scanned so far. *)
Record MacroChecker : Type := mkMacroChecker {
  enabled_messages : gset MessageId;
  entity_db : EntityDatabase;
  checker_file_class : CheckerFileClass;
  root_path : string;
  files : list (string * list Message)
}.

(** Modelled from the spec: [MacroChecker(enabled_messages, entity_db,
    checker_file_class, root_path)], the constructor. *)
Definition MacroChecker_new (enabled_messages : gset MessageId)
    (entity_db : EntityDatabase) (cls : CheckerFileClass) (root_path : string)
  : MacroChecker :=
  mkMacroChecker enabled_messages entity_db cls root_path [].

(** Modelled from the spec: what a line is, as far as the block tracker is
    concerned: a block delimiter, a reference-page tag line, or other text. *)
Inductive LineKind : Type :=
  | BlockDelimiter (block_type : BlockType)
  | RefPageTagLine (t : RefPageTag)
  | OtherLine.

(** Modelled from the spec: a type declaration of the registry, as
    [handleType] receives it. *)
Record TypeDecl : Type := mkTypeDecl {
  decl_name : string;
  decl_info : TypeInfo;
  decl_requires : option string
}.

Section Checker.

Variable super_handleType :
  string → TypeInfo → option string → EntityDatabase → EntityDatabase.

(** The line classifier and the macro scan of the base class. *)
Variable lineKind : string → LineKind.
Variable checkMacros :
  gset MessageId → EntityDatabase → MacroCheckerFile → string → list Message.

(** [ROOT] and the registry ([xr.xml]) are read from the file system. *)
Variable ROOT : string.
Variable registry : list TypeDecl.

(** Modelled from the spec: [XREntityDatabase()], the construction of the
    entity database by the base class: built once from the registry,
    through the extension points of the registry family. *)
Definition XREntityDatabase : EntityDatabase :=
  let self := populateMacros emptyDatabase in
  let self :=
    fold_left
      (λ self d,
         handleType super_handleType (decl_name d) (decl_info d)
           (decl_requires d) self)
      registry self in
  populateEntities self.

Definition makeMacroChecker (enabled_messages : gset MessageId) : MacroChecker :=
  let entity_db := XREntityDatabase in
  MacroChecker_new enabled_messages entity_db XRMacroCheckerFile ROOT.

Definition is_ref_page_block (b : Block) : bool :=
  bool_decide (block_type b = REF_PAGE_LIKE).

(** Modelled from the spec: the close transition: pop the top block; if no
    reference-page block remains open, clear [in_ref_page] and
    [current_ref_page]. *)
Definition processBlockClosed (self : MacroCheckerFile) : MacroCheckerFile :=
  match block_stack self with
  | [] => self
  | top :: rest =>
      let self := set_block_stack rest self in
      if is_ref_page_block top && negb (existsb is_ref_page_block rest)
      then set_current_ref_page None (set_in_ref_page false self)
      else self
  end.

(** Modelled from the spec: a delimiter line closes the innermost open
    block when it matches the delimiter that opened it, and opens a new
    block through the class's [processBlockOpen] otherwise. *)
Definition processBlockDelimiter (cls : CheckerFileClass) (line : string)
    (block_type : BlockType) (self : MacroCheckerFile) : result MacroCheckerFile :=
  let here := mkMessageContext (filename self) (lineNum self) in
  match block_stack self with
  | top :: _ =>
      if bool_decide (delimiter top = Some line)
      then ok (processBlockClosed self)
      else cls_processBlockOpen cls block_type (Some here) (Some line) self
  | [] => cls_processBlockOpen cls block_type (Some here) (Some line) self
  end.

(** Modelled from the spec: one step of the scan. *)
Definition processLine (cls : CheckerFileClass) (enabled : gset MessageId)
    (db : EntityDatabase) (self : MacroCheckerFile) (line : string)
  : result MacroCheckerFile :=
  let self := set_lineNum (S (lineNum self)) self in
  match lineKind line with
  | BlockDelimiter block_type =>
      self ← processBlockDelimiter cls line block_type self;
      ok (set_prev_line_ref_page_tag None self)
  | RefPageTagLine t =>
      let self := set_current_ref_page (Some (tag_refpage t)) self in
      ok (set_prev_line_ref_page_tag (Some t) self)
  | OtherLine =>
      let found := checkMacros enabled db self line in
      let self := set_messages (messages self ++ found) self in
      ok (set_prev_line_ref_page_tag None self)
  end.

(** Modelled from the spec: the scan state a document starts with: block
    stack and reference-page context are created fresh per document. *)
Definition newCheckerFile (filename : string) : MacroCheckerFile :=
  mkMacroCheckerFile filename 0 [] None None false [].

(** Modelled from the spec: scanning one document: its diagnostics are
    returned and recorded in the checker. *)
Definition processFile (self : MacroChecker) (doc : string * list string)
  : result (list Message * MacroChecker) :=
  let '(filename, lines) := doc in
  f ← for_each
        (processLine (checker_file_class self) (enabled_messages self)
           (entity_db self))
        lines (newCheckerFile filename);
  ok (messages f,
      mkMacroChecker (enabled_messages self) (entity_db self)
        (checker_file_class self) (root_path self)
        (files self ++ [(filename, messages f)])).

(** Modelled from the spec: scanning a set of documents in turn. *)
Definition processFiles (self : MacroChecker) (docs : list (string * list string))
  : result MacroChecker :=
  for_each (λ self doc, r ← processFile self doc; ok (snd r)) docs self.

End Checker.

(** ** The script run as a program: the message sets handed to [checkerMain] *)

Section Main.

(** The members of [MessageId] other than the three named above. *)
Variable other_messages : gset string.

(** [set(MessageId)] *)
Definition set_MessageId : gset MessageId :=
  list_to_set [LEGACY; REFPAGE_BLOCK; REFPAGE_MISSING]
  ∪ set_map OTHER_MESSAGE other_messages.

(** The pair [(default_enabled_messages, available_messages)] that is
    passed to [checkerMain]. *)
Definition main_message_sets : result (gset MessageId * gset MessageId) :=
  available_messages ← set_remove LEGACY set_MessageId;
  let default_enabled_messages :=
    available_messages ∖ DEFAULT_DISABLED_MESSAGES in
  ok (default_enabled_messages, available_messages).

End Main.

(** ** Values the properties below are stated with *)

(** The diagnostic of the recovery branch of [processBlockOpen]. *)
Definition missing_tag_message (self : MacroCheckerFile) : Message :=
  mkMessage REFPAGE_BLOCK ERROR
    (mkMessageContext (filename self) (lineNum self))
    ["Found a line containing only -- outside of a reference page block, not preceded by a reference page tag,";
     "Pretending there was one and opening refpage block for unknown entity anyway, for more readable messages."]
    None.

(** [handleType] registers under the declared name only, as far as the
    superclass does. *)
Definition registers_own_name
    (super_handleType :
       string → TypeInfo → option string → EntityDatabase → EntityDatabase)
  : Prop :=
  ∀ name info requires db other,
    other ≠ name →
    getEntity other (super_handleType name info requires db) = getEntity other db.

(** Two checkers have the same configuration. *)
Definition same_configuration (c1 c2 : MacroChecker) : Prop :=
  enabled_messages c1 = enabled_messages c2
  ∧ entity_db c1 = entity_db c2
  ∧ checker_file_class c1 = checker_file_class c2.

(** A line classifier for examples: [--] delimits a reference-page-like
    block, an [open] line with a [refpage] attribute is a tag line. *)
Definition sample_lineKind (line : string) : LineKind :=
  if bool_decide (line = "--") then BlockDelimiter REF_PAGE_LIKE
  else if bool_decide (line = "[open,refpage='xrCreateInstance']")
  then RefPageTagLine (mkRefPageTag "xrCreateInstance")
  else OtherLine.

(** A macro scan for examples, which finds nothing to report. *)
Definition sample_checkMacros (enabled : gset MessageId) (db : EntityDatabase)
    (self : MacroCheckerFile) (line : string) : list Message :=
  [].

End CheckSpecLinks.

(** * src/conformance/framework/pbr/check-offsets.py *)

Module CheckOffsets.

(** ** The [str] and [list] operations the script uses

    Text is a sequence of code points below 256. *)

(** [str.isspace] on one character. *)
Definition is_space (c : ascii) : bool :=
  let n := nat_of_ascii c in
  ((9 <=? n)%nat && (n <=? 13)%nat) || ((28 <=? n)%nat && (n <=? 32)%nat)
  || (n =? 133)%nat || (n =? 160)%nat.

Fixpoint lstrip_chars (s : list ascii) : list ascii :=
  match s with
  | c :: s' => if is_space c then lstrip_chars s' else s
  | [] => []
  end.

(** [s.strip()] *)
Definition strip (s : string) : string :=
  let l := lstrip_chars (list_ascii_of_string s) in
  string_of_list_ascii (rev (lstrip_chars (rev l))).

(** [s.startswith(p)], returning what follows the prefix. *)
Fixpoint strip_prefix (p s : string) : option string :=
  match p, s with
  | EmptyString, _ => Some s
  | String a p', String b s' =>
      if Ascii.eqb a b then strip_prefix p' s' else None
  | String _ _, EmptyString => None
  end.

(** The text before and after the first occurrence of [sep], if any. *)
Fixpoint find_sep (sep s : string) : option (string * string) :=
  match strip_prefix sep s with
  | Some rest => Some (EmptyString, rest)
  | None =>
      match s with
      | EmptyString => None
      | String c s' =>
          match find_sep sep s' with
          | Some (before, after) => Some (String c before, after)
          | None => None
          end
      end
  end.

(** [s.partition(sep)] for a non-empty separator. *)
Definition partition (s sep : string) : string * string * string :=
  match find_sep sep s with
  | Some (before, after) => (before, sep, after)
  | None => (s, EmptyString, EmptyString)
  end.

(** [s.split(sep)] for a non-empty separator: [cur] is the piece being
    read, [skip] the number of characters of a matched separator still to
    pass over. *)
Fixpoint split_go (sep : string) (skip : nat) (cur : string) (s : string)
  : list string :=
  match s with
  | EmptyString => [cur]
  | String c s' =>
      match skip with
      | S k => split_go sep k cur s'
      | O =>
          match strip_prefix sep s with
          | Some _ => cur :: split_go sep (String.length sep - 1) EmptyString s'
          | None => split_go sep 0 (cur ++ String c EmptyString) s'
          end
      end
  end.

Definition split (s sep : string) : list string := split_go sep 0 EmptyString s.

(** The value of a digit in bases up to 16. *)
Definition digit_value (c : ascii) : option Z :=
  let n := Z.of_nat (nat_of_ascii c) in
  if (48 <=? n)%Z && (n <=? 57)%Z then Some (n - 48)%Z
  else if (97 <=? n)%Z && (n <=? 102)%Z then Some (n - 87)%Z
  else if (65 <=? n)%Z && (n <=? 70)%Z then Some (n - 55)%Z
  else None.

(** Digits in [base], single underscores allowed between digits. *)
Fixpoint digits_go (base acc : Z) (after_underscore : bool) (s : list ascii)
  : option Z :=
  match s with
  | [] => if after_underscore then None else Some acc
  | c :: s' =>
      if Ascii.eqb c "_"%char then
        if after_underscore then None else digits_go base acc true s'
      else
        match digit_value c with
        | Some d =>
            if (d <? base)%Z then digits_go base (acc * base + d)%Z false s'
            else None
        | None => None
        end
  end.

Definition digits (base : Z) (s : list ascii) : option Z :=
  match s with
  | [] => None
  | c :: _ => if Ascii.eqb c "_"%char then None else digits_go base 0 false s
  end.

(** The magnitude of an integer literal: in base 16 an [0x] prefix may come
    first, and one underscore may follow the prefix. *)
Definition magnitude (base : Z) (s : list ascii) : option Z :=
  match s with
  | "0"%char :: x :: s' =>
      if (base =? 16)%Z && (Ascii.eqb x "x"%char || Ascii.eqb x "X"%char) then
        match s' with
        | "_"%char :: s'' => digits base s''
        | _ => digits base s'
        end
      else digits base s
  | _ => digits base s
  end.

(** The white space that [int] passes over on either side of the literal:
    tab to carriage return, the space, and U+0085 and U+00A0. The
    separators U+001C to U+001F, which [str.strip] removes, are not among
    them. *)
Definition is_int_space (c : ascii) : bool :=
  let n := nat_of_ascii c in
  ((9 <=? n)%nat && (n <=? 13)%nat) || (n =? 32)%nat
  || (n =? 133)%nat || (n =? 160)%nat.

Fixpoint lstrip_int (s : list ascii) : list ascii :=
  match s with
  | c :: s' => if is_int_space c then lstrip_int s' else s
  | [] => []
  end.

(** The digits of a literal, its underscores set aside. *)
Definition count_digits (s : list ascii) : nat :=
  length (filter (λ c, Ascii.eqb c "_"%char = false) s).

(** [sys.get_int_max_str_digits()], at its default. *)
Definition int_max_str_digits : nat := 4300.

(** [int(s, base)] for base 10 or 16: surrounding white space, an optional
    sign, then the magnitude. Raises [ValueError] on anything else, and in
    base 10 on a literal of more than [int_max_str_digits] digits. *)
Definition int (s : string) (base : Z) : result Z :=
  let l := rev (lstrip_int (rev (lstrip_int (list_ascii_of_string s)))) in
  let signed :=
    match l with
    | "-"%char :: l' => (-1, l')%Z
    | "+"%char :: l' => (1, l')%Z
    | _ => (1, l)%Z
    end in
  match magnitude base (snd signed) with
  | Some m =>
      if (base =? 10)%Z && (int_max_str_digits <? count_digits (snd signed))%nat
      then raise ValueError
      else ok (fst signed * m)%Z
  | None => raise ValueError
  end.

(** [l.index(x, start)]: the first position at or after [start] that holds
    [x]; raises [ValueError] when there is none. *)
Fixpoint index_from (x : string) (l : list string) (start pos : nat)
  : result nat :=
  match l with
  | [] => raise ValueError
  | y :: l' =>
      if (start <=? pos)%nat && bool_decide (y = x) then ok pos
      else index_from x l' start (S pos)
  end.

Definition index (l : list string) (x : string) (start : nat) : result nat :=
  index_from x l start 0.

(** [l[a:b]] and [l[a:]] for indices that are not negative. *)
Definition slice (l : list string) (a b : nat) : list string :=
  take (b - a) (drop a l).

Definition slice_from (l : list string) (a : nat) : list string := drop a l.

(** [d[key]]: raises [KeyError] when the key is absent. *)
Definition getitem {V : Type} (d : gmap string V) (key : string) : result V :=
  match d !! key with
  | Some v => ok v
  | None => raise KeyError
  end.

(** [dict(pairs)], each element being a list that must have exactly two
    items; a later key replaces an earlier one. *)
Fixpoint dict (pairs : list (list string)) (d : gmap string string)
  : result (gmap string string) :=
  match pairs with
  | [] => ok d
  | [k; v] :: rest => dict rest (<[k := v]> d)
  | _ :: _ => raise ValueError
  end.

(** ** Reflection data *)

Record GlslObjectReflectionData : Type := mkGlslObjectReflectionData {
  name : string;
  offset : Z;
  data_type : Z;
  size : Z;
  index_ : Z;
  binding : Z;
  stages : Z;
  counter : option Z;
  num_members : option Z;
  array_stride : option Z;
  top_level_array_stride : option Z
}.

(** [v = fields.get(key); if v is not None: data.attr = int(v)] *)
Definition optional_int (fields : gmap string string) (key : string)
  : result (option Z) :=
  match fields !! key with
  | Some v => n ← int v 10; ok (Some n)
  | None => ok None
  end.

Definition parse_reflection_line (line : string) : result GlslObjectReflectionData :=
  let '(name, _, all_fields) := partition (strip line) ": " in
  (* [all_fields is None] never holds for the result of [partition] *)
  fields ← dict (map (λ field, split field " ") (split all_fields ", ")) ∅;
  offset ← (v ← getitem fields "offset"; int v 10);
  data_type ← (v ← getitem fields "type"; int v 16);
  size ← (v ← getitem fields "size"; int v 10);
  index ← (v ← getitem fields "index"; int v 10);
  binding ← (v ← getitem fields "binding"; int v 10);
  stages ← (v ← getitem fields "stages"; int v 10);
  counter ← optional_int fields "counter";
  num_members ← optional_int fields "numMembers";
  array_stride ← optional_int fields "arrayStride";
  top_level_array_stride ← optional_int fields "topLevelArrayStride";
  ok (mkGlslObjectReflectionData name offset data_type size index binding stages
        counter num_members array_stride top_level_array_stride).

(** [for line in section_lines: data = parse_reflection_line(line);
    ret[data.name] = data] *)
Definition parse_lines (section_lines : list string)
    (ret : gmap string GlslObjectReflectionData)
  : result (gmap string GlslObjectReflectionData) :=
  for_each
    (λ ret line, data ← parse_reflection_line line; ok (<[name data := data]> ret))
    section_lines ret.

Definition process_reflection_data_section (reflection_lines : list string)
    (heading : string) : result (gmap string GlslObjectReflectionData) :=
  start_idx ← index reflection_lines heading 0;
  let end_idx :=
    match index reflection_lines "" (start_idx + 1) with
    | inr i => Some i
    | inl _ => None (* don't care, last section *)
    end in
  let section_lines :=
    match end_idx with
    | None => slice_from reflection_lines (start_idx + 1)
    | Some end_idx => slice reflection_lines (start_idx + 1) (end_idx - 1)
    end in
  parse_lines section_lines ∅.

Record ReflectionData : Type := mkReflectionData {
  uniforms : gmap string GlslObjectReflectionData
}.

(** The function runs glslangValidator and splits, strips and decodes its
    output; [lines] is the resulting list of lines. *)
Definition compile_and_get_reflection_data (lines : list string)
  : result ReflectionData :=
  let ret := mkReflectionData ∅ in
  start_uniform ← index lines "Uniform reflection:" 0;
  end_uniform ← index lines "" (start_uniform + 1);
  let uniform_lines := slice lines (start_uniform + 1) (end_uniform - 1) in
  u ← parse_lines uniform_lines (uniforms ret);
  ok (mkReflectionData u).

(** ** Offsets asserted in the C header *)

Record COffsetData : Type := mkCOffsetData {
  structure_type : string;
  member_name : string;
  offset_ : Z
}.

(** The fragment of regular expressions [_RE_OFFSET_ASSERTS] is written in:
    a sequence of literal texts and of named groups [(?P<name>[class]+)]. *)
Inductive Item : Type :=
  | Literal (text : string)
  | Group (name : string) (class : ascii → bool).

(** [[A-Za-z]] and [[0-9]] *)
Definition is_letter (c : ascii) : bool :=
  let n := nat_of_ascii c in
  ((65 <=? n)%nat && (n <=? 90)%nat) || ((97 <=? n)%nat && (n <=? 122)%nat).

Definition is_digit (c : ascii) : bool :=
  let n := nat_of_ascii c in
  (48 <=? n)%nat && (n <=? 57)%nat.

Definition _RE_OFFSET_ASSERTS : list Item :=
  [Literal "offsetof(";
   Group "structure_type" is_letter;
   Literal ", ";
   Group "member_name" is_letter;
   Literal ") == ";
   Group "offset" is_digit;
   Literal ","].

(** The first [k] characters of a text, and the text without them. *)
Fixpoint take_chars (k : nat) (s : string) : string :=
  match k, s with
  | S k', String c s' => String c (take_chars k' s')
  | _, _ => EmptyString
  end.

Fixpoint drop_chars (k : nat) (s : string) : string :=
  match k, s with
  | S k', String _ s' => drop_chars k' s'
  | _, _ => s
  end.

(** How many characters of the class a text starts with. *)
Fixpoint run_length (class : ascii → bool) (s : string) : nat :=
  match s with
  | String c s' => if class c then S (run_length class s') else 0
  | EmptyString => 0
  end.

(** Matching a pattern at the start of a text, as the backtracking matcher
    does: a group first takes the longest run of its class and gives
    characters back one at a time, down to one, until the rest of the
    pattern matches. The result binds each group name to its text. *)
Fixpoint match_here (items : list Item) (s : string) : option (gmap string string) :=
  match items with
  | [] => Some ∅
  | Literal text :: items' =>
      match strip_prefix text s with
      | Some s' => match_here items' s'
      | None => None
      end
  | Group name class :: items' =>
      (fix give_back (k : nat) : option (gmap string string) :=
         match k with
         | O => None
         | S k' =>
             match match_here items' (drop_chars k s) with
             | Some groups => Some (<[name := take_chars k s]> groups)
             | None => give_back k'
             end
         end) (run_length class s)
  end.

(** [pattern.search(line)]: the match at the leftmost position that has one. *)
Fixpoint search (items : list Item) (line : string) : option (gmap string string) :=
  match match_here items line with
  | Some groups => Some groups
  | None =>
      match line with
      | EmptyString => None
      | String _ line' => search items line'
      end
  end.

(** [m.group(name)], for a group the pattern defines. *)
Definition group (m : gmap string string) (name : string) : string :=
  default EmptyString (m !! name).

(** The body of the loop over the lines of the header. *)
Definition parse_c_offsets_line (ret : gmap (string * string) COffsetData)
    (line : string) : result (gmap (string * string) COffsetData) :=
  match search _RE_OFFSET_ASSERTS line with
  | Some m =>
      let structure_type := group m "structure_type" in
      let member_name := group m "member_name" in
      offset ← int (group m "offset") 10;
      ok (<[(structure_type, member_name) :=
              mkCOffsetData structure_type member_name offset]> ret)
  | None => ok ret
  end.

(** The function opens the header and reads it line by line; [lines] is
    the list of its lines. *)
Definition parse_c_offsets (lines : list string)
  : result (gmap (string * string) COffsetData) :=
  for_each parse_c_offsets_line lines ∅.

(** ** Comparing the two *)

Definition _GL_TYPES : gmap Z string :=
  {[ 0x8B51%Z := "GL_FLOAT_VEC3";
     0x1405%Z := "GL_UNSIGNED_INT";
     0x1406%Z := "GL_FLOAT" ]}.

(** [f"{n:03d}"]: decimal, zero-padded to three characters, the sign
    counting as one of them. Raises [ValueError] for a number of more than
    [int_max_str_digits] digits. *)
Definition format_03d (n : Z) : result string :=
  let digits := NilZero.string_of_uint (N.to_uint (Z.abs_N n)) in
  let pad width :=
    string_of_list_ascii (repeat "0"%char (width - String.length digits)) in
  if (int_max_str_digits <? String.length digits)%nat then raise ValueError
  else if (n <? 0)%Z then ok ("-" ++ pad 2 ++ digits)
  else ok (pad 3 ++ digits).

(** What a call has printed, and how it ended. *)
Definition printing (A : Type) : Type := list string * result A.

Definition compare_glsl_and_c (shader_data : ReflectionData)
    (source_data : gmap (string * string) COffsetData)
    (glsl_qualified_member c_structure c_member : string) : printing unit :=
  match uniforms shader_data !! glsl_qualified_member with
  | None => ([], raise RuntimeError)
  | Some uniform_data =>
      match source_data !! (c_structure, c_member) with
      | None => ([], raise RuntimeError)
      | Some c_data =>
          let glsl_offset := offset uniform_data in
          let c_offset := offset_ c_data in
          let gl_type_enum := data_type uniform_data in
          match _GL_TYPES !! gl_type_enum with
          | None => ([], raise KeyError)
          | Some gl_type_name =>
              match format_03d glsl_offset with
              | inl e => ([], inl e)
              | inr glsl_text =>
                  let glsl_line :=
                    "GLSL: offset " ++ glsl_text ++ " " ++ glsl_qualified_member
                    ++ " (datatype: " ++ gl_type_name ++ ")" in
                  match format_03d c_offset with
                  | inl e => ([glsl_line], inl e)
                  | inr c_text =>
                      let printed :=
                        [glsl_line;
                         "C:    offset " ++ c_text ++ " "
                           ++ c_structure ++ "." ++ c_member] in
                      if bool_decide (glsl_offset ≠ c_offset)
                      then (printed, raise RuntimeError)
                      else (printed, ok tt)
                  end
              end
          end
      end
  end.

(** One statement after another: the second runs if the first returned. *)
Definition and_then (first : printing unit) (second : printing unit)
  : printing unit :=
  match first with
  | (printed, inr _) => (printed ++ fst second, snd second)%list
  | (printed, inl e) => (printed, inl e)
  end.

(** The script run as a program, on the lines of glslangValidator's output
    and the lines of [GlslBuffers.h]. *)
Definition main (output_lines header_lines : list string) : printing unit :=
  match compile_and_get_reflection_data output_lines with
  | inl e => ([], inl e)
  | inr shader_data =>
      match parse_c_offsets header_lines with
      | inl e => ([], inl e)
      | inr source_data =>
          and_then
            (compare_glsl_and_c shader_data source_data
               "type_SceneBuffer.EyePosition" "SceneConstantBuffer" "EyePosition")
            (and_then
               (compare_glsl_and_c shader_data source_data
                  "type_SceneBuffer.LightDirection" "SceneConstantBuffer"
                  "LightDirection")
               (and_then
                  (compare_glsl_and_c shader_data source_data
                     "type_SceneBuffer.LightColor" "SceneConstantBuffer"
                     "LightDiffuseColor")
                  (compare_glsl_and_c shader_data source_data
                     "type_SceneBuffer.NumSpecularMipLevels" "SceneConstantBuffer"
                     "NumSpecularMipLevels")))
      end
  end.

(** ** A sample of glslangValidator's reflection dump *)

Definition eye_position_line : string :=
  "type_SceneBuffer.EyePosition: offset 64, type 8b51, size 1, index 0, binding -1, stages 16".

Definition light_direction_line : string :=
  "type_SceneBuffer.LightDirection: offset 80, type 8b51, size 1, index 0, binding -1, stages 16".

Definition sample_output : list string :=
  ["PbrPixelShader_glsl.frag"; "Uniform reflection:";
   eye_position_line; light_direction_line;
   ""; "Uniform block reflection:";
   "type_SceneBuffer: offset -1, type ffffffff, size 112, index -1, binding 0, stages 16, numMembers 4";
   ""].

(** A dump in which a fifth uniform follows the four that the script
    checks, and a header that asserts their offsets. *)
Definition passing_output : list string :=
  ["PbrPixelShader_glsl.frag"; "Uniform reflection:";
   eye_position_line; light_direction_line;
   "type_SceneBuffer.LightColor: offset 96, type 8b51, size 1, index 0, binding -1, stages 16";
   "type_SceneBuffer.NumSpecularMipLevels: offset 108, type 1405, size 1, index 0, binding -1, stages 16";
   "BaseColorTexture: offset -1, type 8b5e, size 1, index -1, binding 2, stages 16";
   ""].

Definition passing_header : list string :=
  ["#pragma once";
   "static_assert(offsetof(SceneConstantBuffer, EyePosition) == 64, x);";
   "static_assert(offsetof(SceneConstantBuffer, LightDirection) == 80, x);";
   "static_assert(offsetof(SceneConstantBuffer, LightDiffuseColor) == 96, x);";
   "static_assert(offsetof(SceneConstantBuffer, NumSpecularMipLevels) == 108, x);"].

(** A text of characters of one class. *)
Definition all_of (class : ascii → bool) (s : string) : Prop :=
  Forall (λ c, class c = true) (list_ascii_of_string s).

End CheckOffsets.

(** * check_spec_links.py: the documents of a run *)

Module CheckSpecLinksDocuments.

(** [sub in s] *)
Definition contains (sub s : string) : bool :=
  match CheckOffsets.find_sep sub s with
  | Some _ => true
  | None => false
  end.

(** [sorted(str(fn) for fn in (ROOT / 'specification/sources/').glob('**/*.adoc')
    if "styleguide" not in str(fn))], on the paths that the glob yields, in
    the order in which it yields them. *)
Definition all_docs (found : list string) : list string :=
  merge_sort String.le (filter (λ fn, contains "styleguide" fn = false) found).

End CheckSpecLinksDocuments.

(** * Properties of check_spec_links.py *)

(** Settles a closed decidable proposition by evaluating its decision. *)
Ltac by_computing := apply (bool_decide_unpack _); vm_compute; exact I.

Module CheckSpecLinksFacts.

Import CheckSpecLinks.

(** ** The entity database *)

Lemma addEntity_macros name macroKind cat el gen db :
  macros (addEntity name macroKind cat el gen db) = macros db.
Proof.
  unfold addEntity. destruct (entities db !! name) as [e|]; [|done].
  by case_decide.
Qed.

Lemma getEntity_addEntity_ne name name' macroKind cat el gen db :
  name ≠ name' →
  getEntity name' (addEntity name macroKind cat el gen db) = getEntity name' db.
Proof.
  intros Hne. unfold getEntity, addEntity.
  destruct (entities db !! name) as [e|]; [case_decide|]; simpl;
    by rewrite ?lookup_insert_ne.
Qed.

Lemma getEntity_addEntity_free name macroKind cat el gen db :
  (∀ e, getEntity name db = Some e → category e = cat) →
  getEntity name (addEntity name macroKind cat el gen db)
  = Some (mkEntityData name macroKind cat gen el).
Proof.
  intros Hfree. unfold getEntity in *. unfold addEntity.
  destruct (entities db !! name) as [e|] eqn:He; simpl.
  - rewrite decide_True by (by apply Hfree). simpl. by rewrite lookup_insert_eq.
  - by rewrite lookup_insert_eq.
Qed.

(** Whatever [addEntity] leaves under [name] is the old entry or the new one. *)
Lemma getEntity_addEntity_cases name macroKind cat el gen db :
  getEntity name (addEntity name macroKind cat el gen db) = getEntity name db
  ∨ getEntity name (addEntity name macroKind cat el gen db)
    = Some (mkEntityData name macroKind cat gen el).
Proof.
  unfold getEntity, addEntity.
  destruct (entities db !! name) as [e|] eqn:He; [case_decide|]; simpl;
    rewrite ?lookup_insert_eq; auto.
Qed.

Lemma populate_fold_macros (names : list string) (db : EntityDatabase) :
  macros
    (fold_left
       (λ self name, addEntity name "dlink" "configdefines" None (Some false) self)
       names db)
  = macros db.
Proof.
  revert db. induction names as [|n names IH]; intros db; simpl; [done|].
  by rewrite IH, addEntity_macros.
Qed.

Lemma populate_fold_other (names : list string) (db : EntityDatabase) name :
  name ∉ names →
  getEntity name
    (fold_left
       (λ self name, addEntity name "dlink" "configdefines" None (Some false) self)
       names db)
  = getEntity name db.
Proof.
  revert db. induction names as [|n names IH]; intros db Hnot; simpl; [done|].
  apply not_elem_of_cons in Hnot as [Hne Hnot].
  rewrite IH by done. by apply getEntity_addEntity_ne.
Qed.

Lemma populate_fold_member (names : list string) (db : EntityDatabase) name :
  name ∈ names →
  (∀ e, getEntity name db = Some e → category e = "configdefines") →
  getEntity name
    (fold_left
       (λ self name, addEntity name "dlink" "configdefines" None (Some false) self)
       names db)
  = Some (mkEntityData name "dlink" "configdefines" (Some false) None).
Proof.
  revert db. induction names as [|n names IH]; intros db Hin Hfree; simpl.
  - by apply elem_of_nil in Hin.
  - destruct (decide (name = n)) as [->|Hne].
    + destruct (decide (n ∈ names)) as [Hagain|Hlast].
      * apply IH; [done|]. intros e.
        rewrite getEntity_addEntity_free by done. by intros [= <-].
      * rewrite populate_fold_other by done.
        by apply getEntity_addEntity_free.
    + apply elem_of_cons in Hin as [?|Hin]; [done|].
      apply IH; [done|]. intros e.
      rewrite getEntity_addEntity_ne by done. apply Hfree.
Qed.

(** C6: [populateEntities] makes four calls of [addEntity], one for each of
    [XRAPI_ATTR], [XRAPI_CALL], [XRAPI_PTR] and [XR_NO_STDINT_H], each with
    macro kind [dlink], category [configdefines] and [generates=False].
    Each of these names is then registered with exactly those attributes
    (provided [addEntity] does not meet a conflicting category), and no
    other name and no macro registration is touched; on an empty database
    the registered names are exactly the four. *)
Theorem populateEntities_extra_defines (self : EntityDatabase) :
  populateEntities self
  = addEntity "XR_NO_STDINT_H" "dlink" "configdefines" None (Some false)
      (addEntity "XRAPI_PTR" "dlink" "configdefines" None (Some false)
         (addEntity "XRAPI_CALL" "dlink" "configdefines" None (Some false)
            (addEntity "XRAPI_ATTR" "dlink" "configdefines" None (Some false)
               self)))
  ∧ macros (populateEntities self) = macros self
  ∧ (∀ name, name ∉ EXTRA_DEFINES →
       getEntity name (populateEntities self) = getEntity name self)
  ∧ (∀ name, name ∈ EXTRA_DEFINES →
       (∀ e, getEntity name self = Some e → category e = "configdefines") →
       getEntity name (populateEntities self)
       = Some (mkEntityData name "dlink" "configdefines" (Some false) None))
  ∧ dom (entities (populateEntities emptyDatabase))
    = list_to_set ["XRAPI_ATTR"; "XRAPI_CALL"; "XRAPI_PTR"; "XR_NO_STDINT_H"].
Proof.
  split; [reflexivity|]. split; [apply populate_fold_macros|].
  split; [intros name; apply populate_fold_other|].
  split; [intros name; apply populate_fold_member|].
  apply set_eq. intros x. rewrite elem_of_dom, elem_of_list_to_set.
  change (is_Some (getEntity x (populateEntities emptyDatabase)) ↔ x ∈ EXTRA_DEFINES).
  destruct (decide (x ∈ EXTRA_DEFINES)) as [Hin|Hnot].
  - unfold populateEntities. rewrite populate_fold_member; [by eauto|done|].
    intros e. unfold getEntity. simpl. by rewrite lookup_empty.
  - unfold populateEntities. rewrite populate_fold_other by done.
    unfold getEntity. simpl. rewrite lookup_empty. split; [|done].
    by intros [? ?].
Qed.

(** C2: when the element of a type declaration has category [bitmask],
    [handleType] calls [addEntity] with macro kind [elink] and category
    [flags]: the entry it leaves under the name is either the one that was
    there or an entity of category [flags] and macro kind [elink], never
    [tlink]; the latter when the name was free or registered under [flags].
    [elink] is a macro kind that [populateMacros] registers for [flags].
    For any other category [handleType] is the superclass's [handleType]. *)
Theorem handleType_bitmask
    (super_handleType :
       string → TypeInfo → option string → EntityDatabase → EntityDatabase)
    (name : string) (info : TypeInfo) (requires : option string)
    (self : EntityDatabase) :
  (Element_get (elem info) "category" = Some "bitmask" →
     let self' := handleType super_handleType name info requires self in
     self' = addEntity name "elink" "flags" (Some (elem info)) None self
     ∧ (∀ e, getEntity name self' = Some e →
          getEntity name self = Some e
          ∨ (category e = "flags" ∧ macro e = "elink" ∧ macro e ≠ "tlink"))
     ∧ ((∀ e, getEntity name self = Some e → category e = "flags") →
          getEntity name self'
          = Some (mkEntityData name "elink" "flags" None (Some (elem info))))
     ∧ (∀ other, other ≠ name → getEntity other self' = getEntity other self)
     ∧ macros self' = macros self)
  ∧ (Element_get (elem info) "category" ≠ Some "bitmask" →
     handleType super_handleType name info requires self
     = super_handleType name info requires self)
  ∧ macroRegisteredFor "elink" "flags" (populateMacros self).
Proof.
  unfold handleType. split; [|split].
  - intros Hcat. rewrite decide_True by done. cbv zeta.
    split; [done|]. split; [|split; [|split]].
    + intros e He.
      destruct (getEntity_addEntity_cases name "elink" "flags"
                  (Some (elem info)) None self) as [Hsame|Hnew].
      * left. by rewrite <- Hsame.
      * right. rewrite Hnew in He. by injection He as <-.
    + apply getEntity_addEntity_free.
    + intros other Hne. by apply getEntity_addEntity_ne.
    + apply addEntity_macros.
  - intros Hcat. by rewrite decide_False.
  - exists (mkMacroData ["enums"; "flags"] true). split.
    + unfold populateMacros, addMacro. simpl.
      rewrite lookup_insert_ne by done. by rewrite lookup_insert_eq.
    + simpl. set_solver.
Qed.

(** A bitmask declaration and a struct declaration, on an empty database. *)
Lemma handleType_bitmask_witness :
  let flags_info := mkTypeInfo (mkElement "type" {[ "category" := "bitmask" ]}) in
  let struct_info := mkTypeInfo (mkElement "type" {[ "category" := "struct" ]}) in
  let super := λ name (_ : TypeInfo) (_ : option string) self,
                 addEntity name "tlink" "structs" None None self in
  getEntity "XrInstanceCreateFlags"
    (handleType super "XrInstanceCreateFlags" flags_info None emptyDatabase)
  = Some (mkEntityData "XrInstanceCreateFlags" "elink" "flags" None
            (Some (elem flags_info)))
  ∧ handleType super "XrPosef" struct_info None emptyDatabase
    = super "XrPosef" struct_info None emptyDatabase.
Proof.
  intros flags_info struct_info super. split.
  - destruct (handleType_bitmask super "XrInstanceCreateFlags" flags_info None
                emptyDatabase) as [Hbitmask _].
    destruct (Hbitmask eq_refl) as (_ & _ & Hfree & _).
    apply Hfree. intros e. unfold getEntity. simpl.
    rewrite lookup_empty. discriminate.
  - destruct (handleType_bitmask super "XrPosef" struct_info None
                emptyDatabase) as (_ & Hother & _).
    apply Hother. vm_compute. discriminate.
Defined.

Lemma handleType_other super_handleType name info requires db other :
  registers_own_name super_handleType →
  other ≠ name →
  getEntity other (handleType super_handleType name info requires db)
  = getEntity other db.
Proof.
  intros Hsuper Hne. unfold handleType. case_decide.
  - by apply getEntity_addEntity_ne.
  - by apply Hsuper.
Qed.

(** A database holds no name but those the registry declares and the extra
    defines. *)
Lemma XREntityDatabase_names super_handleType (registry : list TypeDecl) name :
  registers_own_name super_handleType →
  name ∉ map decl_name registry →
  name ∉ EXTRA_DEFINES →
  getEntity name (XREntityDatabase super_handleType registry) = None.
Proof.
  intros Hsuper Hregistry Hextra. unfold XREntityDatabase, populateEntities.
  rewrite populate_fold_other by done.
  assert (∀ db,
            getEntity name
              (fold_left
                 (λ self d,
                    handleType super_handleType (decl_name d) (decl_info d)
                      (decl_requires d) self)
                 registry db)
            = getEntity name db) as Hfold.
  { induction registry as [|d registry IH]; intros db; simpl; [done|].
    simpl in Hregistry. apply not_elem_of_cons in Hregistry as [Hne Hrest].
    rewrite IH by done. by apply handleType_other. }
  rewrite Hfold. unfold getEntity. simpl. apply lookup_empty.
Qed.

(** ** The message sets of a run *)

Lemma LEGACY_in_set_MessageId (other_messages : gset string) :
  LEGACY ∈ set_MessageId other_messages.
Proof. unfold set_MessageId. set_solver. Qed.

(** C4: the default enabled set handed to [checkerMain] is the set of all
    [MessageId] values without [LEGACY] and without [REFPAGE_MISSING], and
    the available set is the set of all values without [LEGACY]; removing
    [LEGACY] does not raise. [LEGACY] is in neither set, so no enabled set
    drawn from the available ones contains it. *)
Theorem main_message_sets_spec (other_messages : gset string) :
  let all := set_MessageId other_messages in
  main_message_sets other_messages
  = ok (all ∖ {[LEGACY]} ∖ {[REFPAGE_MISSING]}, all ∖ {[LEGACY]})
  ∧ (LEGACY ∉ all ∖ {[LEGACY]} ∖ {[REFPAGE_MISSING]})
  ∧ (REFPAGE_MISSING ∉ all ∖ {[LEGACY]} ∖ {[REFPAGE_MISSING]})
  ∧ (∀ m, m ∈ all → m ≠ LEGACY → m ≠ REFPAGE_MISSING →
       m ∈ all ∖ {[LEGACY]} ∖ {[REFPAGE_MISSING]})
  ∧ (∀ enabled : gset MessageId, enabled ⊆ all ∖ {[LEGACY]} → LEGACY ∉ enabled).
Proof.
  intros all. split; [|split; [|split; [|split]]].
  - unfold main_message_sets, set_remove.
    rewrite decide_True by apply LEGACY_in_set_MessageId.
    unfold DEFAULT_DISABLED_MESSAGES. simpl.
    unfold mbind, result_bind, ok. do 2 f_equal; set_solver.
  - intros Hin. apply elem_of_difference in Hin as [Hin _].
    apply elem_of_difference in Hin as [_ Hnot]. by apply Hnot, elem_of_singleton.
  - intros Hin. apply elem_of_difference in Hin as [_ Hnot].
    by apply Hnot, elem_of_singleton.
  - intros m Hin Hlegacy Hmissing.
    repeat (apply elem_of_difference; split); by rewrite ?elem_of_singleton.
  - intros enabled Hsub Hin. apply Hsub in Hin.
    apply elem_of_difference in Hin as [_ Hnot]. by apply Hnot, elem_of_singleton.
Qed.

(** C5: [getSystemTypes] returns the same set for every database object, and
    that set holds exactly the fourteen names [void], [char], [float],
    [size_t], [intptr_t], [uintptr_t], [int8_t], [uint8_t], [int16_t],
    [uint16_t], [int32_t], [uint32_t], [int64_t] and [uint64_t]. *)
Theorem getSystemTypes_fixed (self : EntityDatabase) :
  getSystemTypes self = SYSTEM_TYPES
  ∧ size (getSystemTypes self) = 14
  ∧ ∀ x : string,
      x ∈ getSystemTypes self ↔
      x ∈ ["void"; "char"; "float"; "size_t"; "intptr_t"; "uintptr_t";
           "int8_t"; "uint8_t"; "int16_t"; "uint16_t"; "int32_t"; "uint32_t";
           "int64_t"; "uint64_t"].
Proof.
  split; [reflexivity|]. split; [by vm_compute|].
  intros x. unfold getSystemTypes, SYSTEM_TYPES. by rewrite elem_of_list_to_set.
Qed.

(** C7: the include-name mapping of the OpenXR checker is the identity: for
    every entity name [e], [computeExpectedRefPageFromInclude(e)] is [e],
    also when the method is reached through the class handed to the
    checker. *)
Theorem computeExpectedRefPageFromInclude_id (self : MacroCheckerFile)
    (entity : string) :
  computeExpectedRefPageFromInclude self entity = entity
  ∧ cls_computeExpectedRefPageFromInclude XRMacroCheckerFile self entity = entity.
Proof. split; reflexivity. Qed.

(** ** Opening a block *)

(** The state the recovery branch leaves. *)
Lemma processBlockOpen_recovery context delimiter self :
  truthy (prev_line_ref_page_tag self) = false →
  processBlockOpen REF_PAGE_LIKE context delimiter self
  = ok (mkMacroCheckerFile (filename self) (lineNum self)
          (mkBlock REF_PAGE_LIKE (Some "?missing-refpage-tag?") context delimiter
             :: block_stack self)
          (Some "?missing-refpage-tag?") None true
          (messages self ++ [missing_tag_message self])).
Proof.
  intros Hno. unfold processBlockOpen. rewrite Hno. reflexivity.
Qed.

(** Outside the recovery branch the method is the superclass's. *)
Lemma processBlockOpen_standard block_type context delimiter self :
  block_type ≠ REF_PAGE_LIKE ∨ truthy (prev_line_ref_page_tag self) = true →
  processBlockOpen block_type context delimiter self
  = super_processBlockOpen block_type context delimiter self.
Proof.
  intros Hstd. unfold processBlockOpen.
  destruct Hstd as [Hne|Htag].
  - by rewrite bool_decide_eq_false_2.
  - rewrite Htag. by rewrite andb_false_r.
Qed.

(** C1: when a reference-page-like block is opened and no tag is pending,
    [processBlockOpen] returns without raising, appends exactly one
    diagnostic, of kind [REFPAGE_BLOCK], and pushes exactly one block, whose
    [refpage] is [?missing-refpage-tag?]; that value is not a system type,
    not one of the extra defines, and not the name of an entity of the
    database unless the registry itself declares a type of that name. *)
Theorem processBlockOpen_missing_tag
    (context : option MessageContext) (delimiter : option string)
    (self : MacroCheckerFile) :
  truthy (prev_line_ref_page_tag self) = false →
  ∃ self' d b,
    processBlockOpen REF_PAGE_LIKE context delimiter self = ok self'
    ∧ messages self' = (messages self ++ [d])%list
    ∧ message_id d = REFPAGE_BLOCK
    ∧ block_stack self' = b :: block_stack self
    ∧ b = mkBlock REF_PAGE_LIKE (Some "?missing-refpage-tag?") context delimiter
    ∧ ("?missing-refpage-tag?" ∉ SYSTEM_TYPES)
    ∧ ("?missing-refpage-tag?" ∉ EXTRA_DEFINES)
    ∧ (∀ super_handleType registry,
         registers_own_name super_handleType →
         "?missing-refpage-tag?" ∉ map decl_name registry →
         getEntity "?missing-refpage-tag?"
           (XREntityDatabase super_handleType registry) = None).
Proof.
  intros Hno. eexists _, _, _.
  split; [by apply processBlockOpen_recovery|]. simpl.
  assert ("?missing-refpage-tag?" ∉ EXTRA_DEFINES) as Hextra by by_computing.
  do 4 (split; [reflexivity|]). split; [by_computing|]. split; [done|].
  intros super_handleType registry Hsuper Hregistry.
  by apply XREntityDatabase_names.
Qed.

Lemma processBlockOpen_missing_tag_witness :
  let self := mkMacroCheckerFile "chapters/instance.adoc" 12 [] None None false [] in
  ∃ self' d b,
    processBlockOpen REF_PAGE_LIKE None (Some "--") self = ok self'
    ∧ messages self' = (messages self ++ [d])%list
    ∧ message_id d = REFPAGE_BLOCK
    ∧ block_stack self' = b :: block_stack self
    ∧ b = mkBlock REF_PAGE_LIKE (Some "?missing-refpage-tag?") None (Some "--")
    ∧ ("?missing-refpage-tag?" ∉ SYSTEM_TYPES)
    ∧ ("?missing-refpage-tag?" ∉ EXTRA_DEFINES)
    ∧ (∀ super_handleType registry,
         registers_own_name super_handleType →
         "?missing-refpage-tag?" ∉ map decl_name registry →
         getEntity "?missing-refpage-tag?"
           (XREntityDatabase super_handleType registry) = None).
Proof.
  intros self. apply (processBlockOpen_missing_tag None (Some "--") self).
  reflexivity.
Defined.

(** C3: when a reference-page-like block is opened and the previous line
    carried a tag, [processBlockOpen] is the superclass's method: it appends
    no diagnostic, and the block it pushes has the tagged entity name as
    its [refpage]. *)
Theorem processBlockOpen_tagged
    (context : option MessageContext) (delimiter : option string)
    (self : MacroCheckerFile) (t : RefPageTag) :
  prev_line_ref_page_tag self = Some t →
  processBlockOpen REF_PAGE_LIKE context delimiter self
  = super_processBlockOpen REF_PAGE_LIKE context delimiter self
  ∧ ∃ self',
      processBlockOpen REF_PAGE_LIKE context delimiter self = ok self'
      ∧ messages self' = messages self
      ∧ block_stack self'
        = mkBlock REF_PAGE_LIKE (Some (tag_refpage t)) context delimiter
            :: block_stack self
      ∧ in_ref_page self' = true.
Proof.
  intros Htag.
  assert (processBlockOpen REF_PAGE_LIKE context delimiter self
          = super_processBlockOpen REF_PAGE_LIKE context delimiter self) as Heq.
  { apply processBlockOpen_standard. right. by rewrite Htag. }
  split; [done|]. rewrite Heq. unfold super_processBlockOpen. rewrite Htag.
  eexists. split; [reflexivity|]. by simpl.
Qed.

Lemma processBlockOpen_tagged_witness :
  let t := mkRefPageTag "xrCreateInstance" in
  let self :=
    mkMacroCheckerFile "chapters/instance.adoc" 12 [] (Some "xrCreateInstance")
      (Some t) false [] in
  processBlockOpen REF_PAGE_LIKE None (Some "--") self
  = super_processBlockOpen REF_PAGE_LIKE None (Some "--") self
  ∧ ∃ self',
      processBlockOpen REF_PAGE_LIKE None (Some "--") self = ok self'
      ∧ messages self' = messages self
      ∧ block_stack self'
        = mkBlock REF_PAGE_LIKE (Some (tag_refpage t)) None (Some "--")
            :: block_stack self
      ∧ in_ref_page self' = true.
Proof.
  intros t self. apply (processBlockOpen_tagged None (Some "--") self t).
  reflexivity.
Defined.

(** C9: after the recovery branch the scan state has [current_ref_page] set
    to [?missing-refpage-tag?], [in_ref_page] true and
    [prev_line_ref_page_tag] cleared, the location of the scan being
    untouched; a second reference-page-like block opened from that state
    takes the recovery branch again: one more [REFPAGE_BLOCK] diagnostic and
    one more placeholder block. *)
Theorem processBlockOpen_recovery_state
    (context context2 : option MessageContext) (delimiter delimiter2 : option string)
    (self : MacroCheckerFile) :
  truthy (prev_line_ref_page_tag self) = false →
  ∃ self' self'',
    processBlockOpen REF_PAGE_LIKE context delimiter self = ok self'
    ∧ current_ref_page self' = Some "?missing-refpage-tag?"
    ∧ in_ref_page self' = true
    ∧ prev_line_ref_page_tag self' = None
    ∧ filename self' = filename self
    ∧ lineNum self' = lineNum self
    ∧ processBlockOpen REF_PAGE_LIKE context2 delimiter2 self' = ok self''
    ∧ messages self''
      = (messages self ++ [missing_tag_message self; missing_tag_message self])%list
    ∧ block_stack self''
      = mkBlock REF_PAGE_LIKE (Some "?missing-refpage-tag?") context2 delimiter2
          :: mkBlock REF_PAGE_LIKE (Some "?missing-refpage-tag?") context delimiter
          :: block_stack self
    ∧ current_ref_page self'' = Some "?missing-refpage-tag?"
    ∧ in_ref_page self'' = true
    ∧ prev_line_ref_page_tag self'' = None.
Proof.
  intros Hno. eexists _, _.
  split; [by apply processBlockOpen_recovery|]. simpl.
  do 5 (split; [reflexivity|]).
  split; [by apply processBlockOpen_recovery|]. simpl.
  rewrite <- app_assoc. by repeat split.
Qed.

Lemma processBlockOpen_recovery_state_witness :
  let self := mkMacroCheckerFile "chapters/instance.adoc" 12 [] None None false [] in
  ∃ self' self'',
    processBlockOpen REF_PAGE_LIKE None (Some "--") self = ok self'
    ∧ current_ref_page self' = Some "?missing-refpage-tag?"
    ∧ in_ref_page self' = true
    ∧ prev_line_ref_page_tag self' = None
    ∧ filename self' = filename self
    ∧ lineNum self' = lineNum self
    ∧ processBlockOpen REF_PAGE_LIKE None (Some "--") self' = ok self''
    ∧ messages self''
      = (messages self ++ [missing_tag_message self; missing_tag_message self])%list
    ∧ block_stack self''
      = mkBlock REF_PAGE_LIKE (Some "?missing-refpage-tag?") None (Some "--")
          :: mkBlock REF_PAGE_LIKE (Some "?missing-refpage-tag?") None (Some "--")
          :: block_stack self
    ∧ current_ref_page self'' = Some "?missing-refpage-tag?"
    ∧ in_ref_page self'' = true
    ∧ prev_line_ref_page_tag self'' = None.
Proof.
  intros self.
  apply (processBlockOpen_recovery_state None None (Some "--") (Some "--") self).
  reflexivity.
Defined.


(** ** Scanning documents *)

Section Scan.

Variable super_handleType :
  string → TypeInfo → option string → EntityDatabase → EntityDatabase.
Variable lineKind : string → LineKind.
Variable checkMacros :
  gset MessageId → EntityDatabase → MacroCheckerFile → string → list Message.
Variable ROOT : string.
Variable registry : list TypeDecl.

(** Block opening never raises. *)
Lemma processBlockOpen_returns block_type context delimiter self :
  ∃ self', processBlockOpen block_type context delimiter self = ok self'.
Proof.
  unfold processBlockOpen.
  destruct (bool_decide (block_type = REF_PAGE_LIKE)
            && negb (truthy (prev_line_ref_page_tag self))).
  - by eexists.
  - unfold super_processBlockOpen.
    destruct block_type, (prev_line_ref_page_tag self); by eexists.
Qed.

Lemma processLine_returns enabled db self line :
  ∃ self',
    processLine lineKind checkMacros XRMacroCheckerFile enabled db self line
    = ok self'.
Proof.
  unfold processLine. destruct (lineKind line) as [block_type|t|]; [|by eexists..].
  unfold processBlockDelimiter. cbn [cls_processBlockOpen XRMacroCheckerFile].
  set (self1 := set_lineNum (S (lineNum self)) self).
  set (here := mkMessageContext (filename self1) (lineNum self1)).
  destruct (processBlockOpen_returns block_type (Some here) (Some line) self1)
    as [self2 Hopen].
  destruct (block_stack self1) as [|top rest]; [|case_bool_decide];
    rewrite ?Hopen; by eexists.
Qed.

Lemma scan_returns enabled db lines self :
  ∃ self',
    for_each (processLine lineKind checkMacros XRMacroCheckerFile enabled db)
      lines self
    = ok self'.
Proof.
  revert self. induction lines as [|line lines IH]; intros self.
  - by eexists.
  - cbn [for_each].
    destruct (processLine_returns enabled db self line) as [self1 ->].
    apply IH.
Qed.

(** The diagnostics of a document are those of a scan that starts from a
    fresh per-document state; the checker keeps its configuration. *)
Lemma processFile_returns (c : MacroChecker) (doc : string * list string) :
  checker_file_class c = XRMacroCheckerFile →
  ∃ f c',
    for_each
      (processLine lineKind checkMacros XRMacroCheckerFile (enabled_messages c)
         (entity_db c))
      doc.2 (newCheckerFile doc.1)
    = ok f
    ∧ processFile lineKind checkMacros c doc = ok (messages f, c')
    ∧ same_configuration c' c.
Proof.
  intros Hcls. destruct doc as [fname lines].
  destruct (scan_returns (enabled_messages c) (entity_db c) lines
              (newCheckerFile fname)) as [f Hscan].
  exists f. eexists. split; [done|].
  unfold processFile. rewrite Hcls. simpl in Hscan. rewrite Hscan.
  split; [reflexivity|]. by repeat split.
Qed.

Lemma processFiles_returns (c : MacroChecker) (docs : list (string * list string)) :
  checker_file_class c = XRMacroCheckerFile →
  ∃ c', processFiles lineKind checkMacros c docs = ok c'
        ∧ same_configuration c' c.
Proof.
  revert c. induction docs as [|doc docs IH]; intros c Hcls.
  - exists c. by repeat split.
  - destruct (processFile_returns c doc Hcls) as (f & c1 & _ & Hrun & Hcfg).
    destruct (IH c1) as (c2 & Hrest & Hcfg2).
    { destruct Hcfg as (_ & _ & ->). done. }
    exists c2. split.
    + unfold processFiles in *. cbn [for_each]. by rewrite Hrun.
    + destruct Hcfg as (? & ? & ?), Hcfg2 as (? & ? & ?).
      repeat split; congruence.
Qed.

End Scan.

(** An untagged [--] block: one diagnostic, and the stack is empty after
    the closing [--]. *)
Example scan_untagged_block :
  ∃ f,
    for_each
      (processLine sample_lineKind sample_checkMacros XRMacroCheckerFile ∅
         emptyDatabase)
      ["--"; "Some text."; "--"] (newCheckerFile "chapters/instance.adoc")
    = ok f
    ∧ messages f
      = [missing_tag_message
           (mkMacroCheckerFile "chapters/instance.adoc" 1 [] None None false [])]
    ∧ block_stack f = []
    ∧ in_ref_page f = false.
Proof. eexists. split; [vm_compute; reflexivity|]. by repeat split. Qed.

(** A tagged [--] block: no diagnostic. *)
Example scan_tagged_block :
  ∃ f,
    for_each
      (processLine sample_lineKind sample_checkMacros XRMacroCheckerFile ∅
         emptyDatabase)
      ["[open,refpage='xrCreateInstance']"; "--"; "Some text."; "--"]
      (newCheckerFile "chapters/instance.adoc")
    = ok f
    ∧ messages f = []
    ∧ block_stack f = []
    ∧ current_ref_page f = None.
Proof. eexists. split; [vm_compute; reflexivity|]. by repeat split. Qed.

(** X21: in every case [processBlockOpen] returns and has pushed exactly one
    block, of the type, context and delimiter it was called with, on top of
    the blocks that were open; it leaves the location of the scan alone,
    adds no diagnostic or the one about the missing tag, and whenever the
    block it pushed has a reference page, [in_ref_page] is set. *)
Theorem processBlockOpen_pushes_block (bt : BlockType)
    (ctx : option MessageContext) (delim : option string)
    (self : MacroCheckerFile) :
  ∃ self' b,
    processBlockOpen bt ctx delim self = ok self'
    ∧ block_stack self' = b :: block_stack self
    ∧ block_type b = bt ∧ context b = ctx ∧ delimiter b = delim
    ∧ filename self' = filename self ∧ lineNum self' = lineNum self
    ∧ (messages self' = messages self
       ∨ messages self' = (messages self ++ [missing_tag_message self])%list)
    ∧ (refpage b ≠ None → in_ref_page self' = true).
Proof.
  unfold processBlockOpen, super_processBlockOpen.
  destruct bt as [|other], (prev_line_ref_page_tag self) as [t|];
    eexists _, _; (split; [reflexivity|]); simpl;
    repeat split; auto; done.
Qed.

End CheckSpecLinksFacts.

(** * Properties of check-offsets.py *)

Module CheckOffsetsFacts.

Import CheckOffsets.

Local Open Scope nat_scope.
Local Open Scope list_scope.

(** ** [list.index] *)

Lemma index_from_skip (x : string) (l1 l2 : list string) (start pos : nat) :
  (∀ i y, l1 !! i = Some y → start ≤ pos + i → y ≠ x) →
  index_from x (l1 ++ l2) start pos = index_from x l2 start (pos + length l1).
Proof.
  revert pos. induction l1 as [|y l1 IH]; intros pos Hskip; simpl.
  - f_equal. lia.
  - assert ((start <=? pos)%nat && bool_decide (y = x) = false) as ->.
    { destruct (Nat.leb_spec start pos) as [Hle|Hlt]; [|done]. simpl.
      apply bool_decide_eq_false_2. apply (Hskip 0); [done|lia]. }
    rewrite IH.
    + f_equal. lia.
    + intros i z Hz Hle. apply (Hskip (S i)); [done|lia].
Qed.

Lemma index_from_here (x : string) (l : list string) (start pos : nat) :
  start ≤ pos → index_from x (x :: l) start pos = ok pos.
Proof.
  intros Hle. simpl. rewrite bool_decide_eq_true_2 by done.
  by destruct (Nat.leb_spec start pos); [|lia].
Qed.

Lemma index_from_absent (x : string) (l : list string) (start pos : nat) :
  (∀ i y, l !! i = Some y → start ≤ pos + i → y ≠ x) →
  index_from x l start pos = raise ValueError.
Proof.
  intros Hskip. rewrite <- (app_nil_r l). by rewrite index_from_skip.
Qed.

(** The heading is found at its first occurrence. *)
Lemma index_heading (pre rest : list string) (heading : string) :
  heading ∉ pre →
  index (pre ++ heading :: rest) heading 0 = ok (length pre).
Proof.
  intros Hpre. unfold index. rewrite index_from_skip.
  - by rewrite index_from_here by lia.
  - intros i y Hy _ ->. apply Hpre. by eapply list_elem_of_lookup_2.
Qed.

(** Past the heading, the lines of the section are passed over. *)
Lemma index_skip_section (pre sect rest : list string) (heading x : string) :
  x ∉ sect →
  index_from x (pre ++ heading :: sect ++ rest) (length pre + 1) 0
  = index_from x rest (length pre + 1) (length pre + 1 + length sect).
Proof.
  intros Hsect.
  replace (pre ++ heading :: sect ++ rest)
    with ((pre ++ heading :: sect) ++ rest)
    by (by rewrite <- app_assoc).
  rewrite index_from_skip.
  - f_equal. rewrite length_app. simpl. lia.
  - intros i y Hy Hle ->. apply Hsect.
    apply lookup_app_Some in Hy as [Hy|[Hi Hy]].
    + apply lookup_lt_Some in Hy. lia.
    + destruct (i - length pre) as [|j] eqn:Hj; [lia|].
      simpl in Hy. by eapply list_elem_of_lookup_2.
Qed.

(** ** Slices *)

Lemma slice_section (pre sect rest : list string) (heading : string) :
  slice (pre ++ heading :: sect ++ rest) (length pre + 1)
    (length pre + 1 + length sect - 1)
  = take (length sect - 1) sect.
Proof.
  unfold slice.
  replace (pre ++ heading :: sect ++ rest)
    with ((pre ++ [heading]) ++ sect ++ rest)
    by (by rewrite <- app_assoc).
  rewrite drop_app_length' by (rewrite length_app; simpl; lia).
  replace (length pre + 1 + length sect - 1 - (length pre + 1))
    with (length sect - 1) by lia.
  apply take_app_le. lia.
Qed.

Lemma slice_from_section (pre sect : list string) (heading : string) :
  slice_from (pre ++ heading :: sect) (length pre + 1) = sect.
Proof.
  unfold slice_from.
  replace (pre ++ heading :: sect) with ((pre ++ [heading]) ++ sect)
    by (by rewrite <- app_assoc).
  apply drop_app_length'. rewrite length_app. simpl. lia.
Qed.

(** ** The loop over the lines of a section *)

Lemma parse_lines_nil ret : parse_lines [] ret = ok ret.
Proof. reflexivity. Qed.

Lemma parse_lines_cons line section_lines ret :
  parse_lines (line :: section_lines) ret
  = match parse_reflection_line line with
    | inl e => inl e
    | inr data => parse_lines section_lines (<[name data := data]> ret)
    end.
Proof.
  unfold parse_lines. cbn [for_each].
  by destruct (parse_reflection_line line).
Qed.

(** Every entry of the dictionary comes from a line that was parsed. *)
Lemma parse_lines_lookup section_lines ret m key data :
  parse_lines section_lines ret = ok m →
  m !! key = Some data →
  ret !! key = Some data
  ∨ ∃ line, line ∈ section_lines
            ∧ parse_reflection_line line = ok data ∧ name data = key.
Proof.
  revert ret. induction section_lines as [|line ls IH]; intros ret Hrun Hkey.
  - rewrite parse_lines_nil in Hrun. injection Hrun as ->. by left.
  - rewrite parse_lines_cons in Hrun.
    destruct (parse_reflection_line line) as [e|d] eqn:Hline; [done|].
    destruct (IH _ Hrun Hkey) as [Hret|(l & Hl & Hparse & Hname)].
    + destruct (decide (name d = key)) as [Heq|Hne].
      * right. exists line. rewrite Heq, lookup_insert_eq in Hret.
        injection Hret as <-. split; [by left|done].
      * left. by rewrite lookup_insert_ne in Hret.
    + right. exists l. split; [by right|done].
Qed.

(** The loop returns exactly when every line parses. *)
Lemma parse_lines_ok_records section_lines ret m :
  parse_lines section_lines ret = ok m →
  ∃ records,
    Forall2 (λ line d, parse_reflection_line line = ok d) section_lines records.
Proof.
  revert ret. induction section_lines as [|line ls IH]; intros ret Hrun.
  - by exists [].
  - rewrite parse_lines_cons in Hrun.
    destruct (parse_reflection_line line) as [e|d] eqn:Hline; [done|].
    destruct (IH _ Hrun) as [records Hrecords].
    exists (d :: records). by constructor.
Qed.

(** When every line parses, the dictionary maps a name to the record of the
    last line that carries it, and otherwise to what it held before. *)
Lemma parse_lines_records section_lines records ret :
  Forall2 (λ line d, parse_reflection_line line = ok d) section_lines records →
  ∃ m, parse_lines section_lines ret = ok m
       ∧ ∀ key, m !! key
                = match last (filter (λ d, name d = key) records) with
                  | Some d => Some d
                  | None => ret !! key
                  end.
Proof.
  intros Hall. revert ret.
  induction Hall as [|line d ls ds Hline _ IH]; intros ret.
  - exists ret. by split.
  - rewrite parse_lines_cons, Hline.
    destruct (IH (<[name d := d]> ret)) as (m & Hrun & Hm).
    exists m. split; [done|]. intros key. rewrite Hm, filter_cons.
    destruct (decide (name d = key)) as [<-|Hne].
    + rewrite last_cons.
      destruct (last (filter (λ d', name d' = name d) ds)); [done|].
      by rewrite lookup_insert_eq.
    + destruct (last (filter (λ d', name d' = key) ds)); [done|].
      by rewrite lookup_insert_ne.
Qed.

(** In a dictionary built from the empty one, the keys are the names of the
    records, each with the record of the last line carrying it. *)
Lemma parse_lines_dictionary section_lines records :
  Forall2 (λ line d, parse_reflection_line line = ok d) section_lines records →
  ∃ m, parse_lines section_lines ∅ = ok m
       ∧ ∀ key, m !! key = last (filter (λ d, name d = key) records).
Proof.
  intros Hall.
  destruct (parse_lines_records _ _ ∅ Hall) as (m & Hrun & Hm).
  exists m. split; [done|]. intros key. rewrite Hm, lookup_empty.
  by destruct (last (filter (λ d, name d = key) records)).
Qed.

(** The section of [reflection_lines] under [heading], up to the line
    before the first empty line. *)
Lemma process_terminated_section (pre sect post : list string)
    (heading : string) :
  "" ∉ sect → heading ∉ pre →
  process_reflection_data_section (pre ++ heading :: sect ++ "" :: post) heading
  = parse_lines (take (length sect - 1) sect) ∅
  ∧ (heading = "Uniform reflection:" →
     compile_and_get_reflection_data (pre ++ heading :: sect ++ "" :: post)
     = (u ← parse_lines (take (length sect - 1) sect) ∅;
        ok (mkReflectionData u))).
Proof.
  intros Hsect Hpre.
  assert (index (pre ++ heading :: sect ++ "" :: post) "" (length pre + 1)
          = ok (length pre + 1 + length sect)) as Hend.
  { unfold index. rewrite index_skip_section by done.
    apply index_from_here. lia. }
  split.
  - unfold process_reflection_data_section.
    rewrite index_heading by done. cbn [mbind result_bind ok].
    rewrite Hend. cbn [ok]. by rewrite slice_section.
  - intros ->. unfold compile_and_get_reflection_data.
    rewrite index_heading by done. cbn [mbind result_bind ok].
    rewrite Hend. cbn [mbind result_bind ok]. by rewrite slice_section.
Qed.

(** A section that runs to the end of the lines. *)
Lemma process_unterminated_section (pre sect : list string) (heading : string) :
  "" ∉ sect → heading ∉ pre →
  process_reflection_data_section (pre ++ heading :: sect) heading
  = parse_lines sect ∅.
Proof.
  intros Hsect Hpre. unfold process_reflection_data_section.
  rewrite index_heading by done. cbn [mbind result_bind ok].
  assert (index (pre ++ heading :: sect) "" (length pre + 1)
          = raise ValueError) as ->.
  { unfold index. rewrite <- (app_nil_r sect).
    rewrite index_skip_section by done. reflexivity. }
  cbn [raise]. by rewrite slice_from_section.
Qed.

(** The line before the empty line is not parsed, yet its entry is in the
    dictionary when an earlier line carries the same name: here the section
    holds the same line twice, and the dictionary returned holds the very
    record of the line that was left out. *)
Lemma reflection_last_line_entry_present :
  ∃ r d,
    compile_and_get_reflection_data
      ["Uniform reflection:"; eye_position_line; eye_position_line; ""]
    = ok r
    ∧ parse_reflection_line eye_position_line = ok d
    ∧ uniforms r !! name d = Some d.
Proof.
  eexists _, _. split; [vm_compute; reflexivity|].
  split; [vm_compute; reflexivity|]. by vm_compute.
Qed.

(** C10: when the heading of a section is followed by the lines
    [sect], none of them empty, and then by an empty line, exactly the
    first [length sect - 1] lines of [sect] are parsed, by
    [process_reflection_data_section] and, for the heading
    [Uniform reflection:], by [compile_and_get_reflection_data]. They
    return a dictionary exactly when each of these lines parses, and the
    dictionary then maps every name to the record of the last of these
    lines that carries it, and holds nothing else. The line before the
    empty line has no part in the result, so its name is a key exactly when
    one of the lines before it carries the same name. A section that runs
    to the end of the lines has all of its lines parsed, in the same way. *)
Theorem reflection_section_lines_parsed
    (pre sect post : list string) (heading : string) :
  "" ∉ sect →
  heading ∉ pre →
  let parses (lines : list string) (records : list GlslObjectReflectionData) :=
    Forall2 (λ line d, parse_reflection_line line = ok d) lines records in
  let holds (m : gmap string GlslObjectReflectionData)
            (records : list GlslObjectReflectionData) :=
    ∀ key, m !! key = last (filter (λ d, name d = key) records) in
  let parsed := take (length sect - 1) sect in
  let terminated := pre ++ heading :: sect ++ "" :: post in
  let unterminated := pre ++ heading :: sect in
  (∀ records, parses parsed records →
     ∃ m, process_reflection_data_section terminated heading = ok m
          ∧ holds m records
          ∧ (heading = "Uniform reflection:" →
             compile_and_get_reflection_data terminated
             = ok (mkReflectionData m)))
  ∧ (∀ m, process_reflection_data_section terminated heading = ok m →
       ∃ records, parses parsed records)
  ∧ (∀ r, heading = "Uniform reflection:" →
       compile_and_get_reflection_data terminated = ok r →
       ∃ records, parses parsed records)
  ∧ (∀ init last, sect = init ++ [last] → parsed = init)
  ∧ (∀ init last records m data,
       sect = init ++ [last] →
       parses init records →
       process_reflection_data_section terminated heading = ok m →
       parse_reflection_line last = ok data →
       (is_Some (m !! name data) ↔ ∃ d, d ∈ records ∧ name d = name data))
  ∧ (∀ records, parses sect records →
       ∃ m, process_reflection_data_section unterminated heading = ok m
            ∧ holds m records)
  ∧ (∀ m, process_reflection_data_section unterminated heading = ok m →
       ∃ records, parses sect records).
Proof.
  intros Hsect Hpre parses holds parsed terminated unterminated.
  destruct (process_terminated_section pre sect post heading Hsect Hpre)
    as [Hprocess Hcompile].
  fold parsed terminated in Hprocess, Hcompile.
  pose proof (process_unterminated_section pre sect heading Hsect Hpre)
    as Hopen.
  fold unterminated in Hopen.
  assert (∀ init last, sect = init ++ [last] → parsed = init) as Hinit.
  { intros init last ->. unfold parsed. rewrite length_app. simpl.
    replace (length init + 1 - 1) with (length init) by lia.
    by rewrite take_app_length. }
  split; [|split; [|split; [|split; [|split; [|split]]]]].
  - intros records Hrecords.
    destruct (parse_lines_dictionary parsed records Hrecords)
      as (m & Hrun & Hm).
    exists m. split; [by rewrite Hprocess|]. split; [done|].
    intros Hheading. by rewrite (Hcompile Hheading), Hrun.
  - intros m Hrun. rewrite Hprocess in Hrun.
    by eapply parse_lines_ok_records.
  - intros r Hheading Hrun. rewrite (Hcompile Hheading) in Hrun.
    destruct (parse_lines parsed ∅) as [e|m] eqn:Hlines; [done|].
    by eapply parse_lines_ok_records.
  - exact Hinit.
  - intros init final records m data Hlast Hrecords Hrun Hdata.
    rewrite Hprocess, (Hinit _ _ Hlast) in Hrun.
    destruct (parse_lines_dictionary init records Hrecords)
      as (m' & Hrun' & Hm).
    rewrite Hrun' in Hrun. injection Hrun as <-. rewrite Hm. split.
    + intros [d Hd]. exists d. apply last_Some_elem_of in Hd.
      by apply list_elem_of_filter in Hd as [Hname Hd].
    + intros (d & Hd & Hname).
      destruct (last (filter (λ d', name d' = name data) records))
        as [d'|] eqn:Hnone; [by eexists|].
      apply last_None in Hnone.
      assert (d ∈ filter (λ d', name d' = name data) records) as Hin
        by (by apply list_elem_of_filter).
      rewrite Hnone in Hin. by apply not_elem_of_nil in Hin.
  - intros records Hrecords.
    destruct (parse_lines_dictionary sect records Hrecords)
      as (m & Hrun & Hm).
    exists m. split; [by rewrite Hopen|done].
  - intros m Hrun. rewrite Hopen in Hrun.
    by eapply parse_lines_ok_records.
Qed.

(** Of a reflection dump with two uniforms only the first one is read: the
    dictionary holds its record and has no entry for the second; without
    the empty line both are read. *)
Lemma reflection_section_lines_parsed_witness :
  let eye :=
    mkGlslObjectReflectionData "type_SceneBuffer.EyePosition"
      64 35665 1 0 (-1) 16 None None None None in
  let light :=
    mkGlslObjectReflectionData "type_SceneBuffer.LightDirection"
      80 35665 1 0 (-1) 16 None None None None in
  (∃ m, compile_and_get_reflection_data sample_output
        = ok (mkReflectionData m)
        ∧ process_reflection_data_section sample_output "Uniform reflection:"
          = ok m
        ∧ m !! "type_SceneBuffer.EyePosition" = Some eye
        ∧ m !! "type_SceneBuffer.LightDirection" = None)
  ∧ (∃ m, process_reflection_data_section
            ["PbrPixelShader_glsl.frag"; "Uniform reflection:";
             eye_position_line; light_direction_line]
            "Uniform reflection:"
          = ok m
          ∧ m !! "type_SceneBuffer.EyePosition" = Some eye
          ∧ m !! "type_SceneBuffer.LightDirection" = Some light).
Proof.
  intros eye light.
  assert ("" ∉ [eye_position_line; light_direction_line]) as Hsect
    by by_computing.
  assert ("Uniform reflection:" ∉ ["PbrPixelShader_glsl.frag"]) as Hpre
    by by_computing.
  assert (parse_reflection_line eye_position_line = ok eye) as Heye
    by (vm_compute; reflexivity).
  assert (parse_reflection_line light_direction_line = ok light) as Hlight
    by (vm_compute; reflexivity).
  destruct (reflection_section_lines_parsed
              ["PbrPixelShader_glsl.frag"]
              [eye_position_line; light_direction_line]
              ["Uniform block reflection:";
               "type_SceneBuffer: offset -1, type ffffffff, size 112, index -1, binding 0, stages 16, numMembers 4";
               ""]
              "Uniform reflection:" Hsect Hpre)
    as (Hterminated & _ & _ & _ & _ & Hunterminated & _).
  split.
  - destruct (Hterminated [eye]) as (m & Hprocess & Hm & Hcompile).
    { by repeat constructor. }
    exists m. split; [exact (Hcompile eq_refl)|]. split; [exact Hprocess|].
    split; rewrite Hm; reflexivity.
  - destruct (Hunterminated [eye; light]) as (m & Hprocess & Hm).
    { by repeat constructor. }
    exists m. split; [exact Hprocess|]. split; rewrite Hm; reflexivity.
Defined.

Example parse_reflection_line_eye_position :
  parse_reflection_line eye_position_line
  = ok (mkGlslObjectReflectionData "type_SceneBuffer.EyePosition"
          64 35665 1 0 (-1) 16 None None None None).
Proof. vm_compute. reflexivity. Qed.

Example sample_output_uniforms :
  ∃ r, compile_and_get_reflection_data sample_output = ok r
       ∧ is_Some (uniforms r !! "type_SceneBuffer.EyePosition")
       ∧ uniforms r !! "type_SceneBuffer.LightDirection" = None.
Proof.
  eexists. split; [vm_compute; reflexivity|]. split; [|by vm_compute].
  by eexists.
Qed.

(** A line that cannot be parsed goes unnoticed just before the empty line,
    and raises anywhere else in the section. *)
Example malformed_last_line :
  process_reflection_data_section ["heading"; eye_position_line; "garbage"; ""]
    "heading"
  = parse_lines [eye_position_line] ∅
  ∧ process_reflection_data_section ["heading"; "garbage"; eye_position_line; ""]
      "heading"
    = raise ValueError.
Proof. split; vm_compute; reflexivity. Qed.

(** ** Texts: prefixes and first occurrences *)

Lemma strip_prefix_Some (p s r : string) :
  strip_prefix p s = Some r ↔ s = p +:+ r.
Proof.
  revert s. induction p as [|a p IH]; intros s; simpl.
  - split; [by intros [= ->]|by intros ->].
  - destruct s as [|b s]; [by split|].
    destruct (Ascii.eqb_spec a b) as [->|Hne].
    + rewrite IH. split; [by intros ->|by intros [= ->]].
    + split; [done|]. intros [= ? ?]. by subst.
Qed.

Lemma strip_prefix_app (p r : string) : strip_prefix p (p +:+ r) = Some r.
Proof. by apply strip_prefix_Some. Qed.

Lemma string_app_nil (b : string) : "" +:+ b = b.
Proof. reflexivity. Qed.

Lemma string_app_cons (x : ascii) (a b : string) :
  String x a +:+ b = String x (a +:+ b).
Proof. reflexivity. Qed.

Lemma string_app_assoc (a b c : string) : (a +:+ b) +:+ c = a +:+ (b +:+ c).
Proof.
  induction a as [|x a IH]; [done|]. rewrite !string_app_cons. by f_equal.
Qed.

Lemma string_app_length (a b : string) :
  String.length (a +:+ b) = String.length a + String.length b.
Proof.
  induction a as [|x a IH]; [done|]. rewrite string_app_cons. simpl. by f_equal.
Qed.

(** [find_sep] splits the text at an occurrence of the separator. *)
Lemma find_sep_Some (sep s before after : string) :
  find_sep sep s = Some (before, after) → s = before +:+ sep +:+ after.
Proof.
  revert before. induction s as [|c s IH]; intros before; simpl.
  - destruct (strip_prefix sep "") as [rest|] eqn:Hp; [|done].
    intros [= <- <-]. by apply strip_prefix_Some in Hp.
  - destruct (strip_prefix sep (String c s)) as [rest|] eqn:Hp.
    + intros [= <- <-]. by apply strip_prefix_Some in Hp.
    + destruct (find_sep sep s) as [[b a]|]; [|done].
      intros [= <- <-]. rewrite string_app_cons. f_equal. by apply IH.
Qed.

(** It finds the separator whenever the text holds one, and the occurrence
    it finds is the first. *)
Lemma find_sep_first (sep s x y : string) :
  s = x +:+ sep +:+ y →
  ∃ before after,
    find_sep sep s = Some (before, after)
    ∧ String.length before ≤ String.length x.
Proof.
  revert s. induction x as [|c x IH]; intros s ->.
  - simpl. exists "", y. split; [|simpl; lia].
    destruct (sep +:+ y) eqn:Hs; simpl; rewrite <- ?Hs;
      by rewrite strip_prefix_app.
  - simpl. destruct (strip_prefix sep (String c (x +:+ sep +:+ y))) as [rest|].
    + exists "", rest. split; [done|simpl; lia].
    + destruct (IH _ eq_refl) as (b & a & -> & Hlen).
      exists (String c b), a. split; [done|simpl; lia].
Qed.

Lemma find_sep_None (sep s : string) :
  find_sep sep s = None ↔ ∀ x y, s ≠ x +:+ sep +:+ y.
Proof.
  split.
  - intros Hnone x y Hs.
    destruct (find_sep_first sep s x y Hs) as (b & a & Hfound & _). congruence.
  - intros Hno. destruct (find_sep sep s) as [[b a]|] eqn:Hfound; [|done].
    apply find_sep_Some in Hfound. by destruct (Hno b a).
Qed.

(** The text before the separator that [find_sep] finds holds no separator. *)
Lemma find_sep_before (sep s before after : string) :
  sep ≠ "" →
  find_sep sep s = Some (before, after) →
  ∀ x y, before ≠ x +:+ sep +:+ y.
Proof.
  intros Hsep Hfound x y ->.
  pose proof (find_sep_Some _ _ _ _ Hfound) as Hs.
  rewrite !string_app_assoc in Hs.
  destruct (find_sep_first sep s x (y +:+ sep +:+ after) Hs)
    as (b & a & Hfound' & Hlen).
  rewrite Hfound in Hfound'. injection Hfound' as <- <-.
  rewrite !string_app_length in Hlen.
  destruct sep; [done|]. simpl in Hlen. lia.
Qed.

(** ** Parsing one line *)

Lemma bind_ok {A B : Type} (r : result A) (k : A → result B) (b : B) :
  r ≫= k = ok b → ∃ a, r = ok a ∧ k a = ok b.
Proof. destruct r as [e|a]; [done|]. intros Hk. by exists a. Qed.

(** X1: a line that holds no [": "] is not a reflection line: for every
    such line [parse_reflection_line] raises [ValueError]. *)
Theorem parse_reflection_line_no_separator (line : string) :
  (∀ x y, strip line ≠ x +:+ ": " +:+ y) →
  parse_reflection_line line = raise ValueError.
Proof.
  intros Hno. apply find_sep_None in Hno.
  unfold parse_reflection_line, partition. by rewrite Hno.
Qed.

Lemma parse_reflection_line_no_separator_witness :
  parse_reflection_line "Uniform block reflection" = raise ValueError.
Proof.
  apply (parse_reflection_line_no_separator "Uniform block reflection").
  apply find_sep_None. vm_compute. reflexivity.
Defined.

(** X2: when [parse_reflection_line] returns a record, the line, stripped,
    is the record's name, then the first [": "] of the line, then the
    fields; so a name never holds [": "]. *)
Theorem parse_reflection_line_name (line : string)
    (data : GlslObjectReflectionData) :
  parse_reflection_line line = ok data →
  (∃ all_fields, strip line = name data +:+ ": " +:+ all_fields)
  ∧ ∀ x y, name data ≠ x +:+ ": " +:+ y.
Proof.
  unfold parse_reflection_line, partition. intros Hparse.
  destruct (find_sep ": " (strip line)) as [[before after]|] eqn:Hsep;
    [|done].
  repeat (apply bind_ok in Hparse as (? & _ & Hparse)).
  injection Hparse as <-. simpl. split.
  - exists after. by apply find_sep_Some.
  - by eapply find_sep_before.
Qed.

Lemma parse_reflection_line_name_witness :
  (∃ all_fields,
     strip eye_position_line
     = "type_SceneBuffer.EyePosition" +:+ ": " +:+ all_fields)
  ∧ ∀ x y, "type_SceneBuffer.EyePosition" ≠ x +:+ ": " +:+ y.
Proof.
  apply (parse_reflection_line_name eye_position_line
           (mkGlslObjectReflectionData "type_SceneBuffer.EyePosition"
              64 35665 1 0 (-1) 16 None None None None)).
  vm_compute. reflexivity.
Defined.

(** ** White space around a line *)

Lemma lstrip_chars_spaces (w l : list ascii) :
  Forall (λ c, is_space c = true) w →
  lstrip_chars (w ++ l) = lstrip_chars l.
Proof.
  induction 1 as [|c w Hc _ IH]; simpl; [done|]. by rewrite Hc.
Qed.

Lemma lstrip_chars_app (l w : list ascii) :
  Forall (λ c, is_space c = true) w →
  lstrip_chars (l ++ w)
  = match lstrip_chars l with
    | [] => []
    | c :: l' => (c :: l') ++ w
    end.
Proof.
  intros Hw. induction l as [|c l IH]; simpl.
  - rewrite <- (app_nil_r w). rewrite lstrip_chars_spaces by done. done.
  - destruct (is_space c); [done|]. done.
Qed.

Lemma list_ascii_of_string_app (a b : string) :
  list_ascii_of_string (a +:+ b)
  = list_ascii_of_string a ++ list_ascii_of_string b.
Proof.
  induction a as [|x a IH]; [done|]. rewrite string_app_cons. simpl. by f_equal.
Qed.

Lemma strip_spaces (w1 w2 s : string) :
  Forall (λ c, is_space c = true) (list_ascii_of_string w1) →
  Forall (λ c, is_space c = true) (list_ascii_of_string w2) →
  strip (w1 +:+ s +:+ w2) = strip s.
Proof.
  intros Hw1 Hw2. unfold strip. f_equal. f_equal.
  rewrite !list_ascii_of_string_app.
  rewrite lstrip_chars_spaces by done.
  rewrite lstrip_chars_app by done.
  destruct (lstrip_chars (list_ascii_of_string s)) as [|c l]; [done|].
  rewrite rev_app_distr. apply lstrip_chars_spaces. by apply Forall_rev.
Qed.

(** X3: white space before and after a line does not matter to
    [parse_reflection_line]: the result is the same with it and without. *)
Theorem parse_reflection_line_spaces (w1 w2 line : string) :
  Forall (λ c, is_space c = true) (list_ascii_of_string w1) →
  Forall (λ c, is_space c = true) (list_ascii_of_string w2) →
  parse_reflection_line (w1 +:+ line +:+ w2) = parse_reflection_line line.
Proof.
  intros Hw1 Hw2. unfold parse_reflection_line. by rewrite strip_spaces.
Qed.

Lemma parse_reflection_line_spaces_witness :
  parse_reflection_line
    ("    " +:+ eye_position_line +:+ String (ascii_of_nat 13) (String (ascii_of_nat 10) ""))
  = parse_reflection_line eye_position_line.
Proof.
  apply (parse_reflection_line_spaces "    " (String (ascii_of_nat 13) (String (ascii_of_nat 10) ""))
           eye_position_line).
  - by repeat constructor.
  - by repeat constructor.
Defined.

(** ** Sections that are not there, or not closed *)

(** X4: when no line is the heading, [process_reflection_data_section]
    raises [ValueError], and so does [compile_and_get_reflection_data] when
    no line is [Uniform reflection:]; in particular on empty output. *)
Theorem reflection_section_missing (lines : list string) (heading : string) :
  heading ∉ lines →
  process_reflection_data_section lines heading = raise ValueError
  ∧ (heading = "Uniform reflection:" →
     compile_and_get_reflection_data lines = raise ValueError).
Proof.
  intros Hno.
  assert (index lines heading 0 = raise ValueError) as Hindex.
  { apply index_from_absent. intros i y Hy _ ->.
    apply Hno. by eapply list_elem_of_lookup_2. }
  split.
  - unfold process_reflection_data_section. by rewrite Hindex.
  - intros ->. unfold compile_and_get_reflection_data. by rewrite Hindex.
Qed.

Lemma reflection_section_missing_witness :
  process_reflection_data_section [] "Uniform reflection:" = raise ValueError
  ∧ compile_and_get_reflection_data ["ERROR: 0:1: syntax error"]
    = raise ValueError.
Proof.
  split.
  - apply (reflection_section_missing [] "Uniform reflection:").
    by_computing.
  - apply (reflection_section_missing ["ERROR: 0:1: syntax error"]
             "Uniform reflection:"); [by_computing|done].
Defined.

(** X5: when the uniform section runs to the end of the output, with no
    empty line after it, [compile_and_get_reflection_data] raises
    [ValueError], whatever the section holds; the same lines make
    [process_reflection_data_section] parse the section to its end. *)
Theorem compile_unterminated (pre sect : list string) :
  "Uniform reflection:" ∉ pre →
  "" ∉ sect →
  compile_and_get_reflection_data (pre ++ "Uniform reflection:" :: sect)
  = raise ValueError
  ∧ process_reflection_data_section (pre ++ "Uniform reflection:" :: sect)
      "Uniform reflection:"
    = parse_lines sect ∅.
Proof.
  intros Hpre Hsect.
  assert (index (pre ++ "Uniform reflection:" :: sect) "" (length pre + 1)
          = raise ValueError) as Hend.
  { unfold index. rewrite <- (app_nil_r sect).
    rewrite index_skip_section by done. reflexivity. }
  split.
  - unfold compile_and_get_reflection_data.
    rewrite index_heading by done. cbn [mbind result_bind ok].
    by rewrite Hend.
  - unfold process_reflection_data_section.
    rewrite index_heading by done. cbn [mbind result_bind ok].
    rewrite Hend. cbn [raise]. by rewrite slice_from_section.
Qed.

Lemma compile_unterminated_witness :
  compile_and_get_reflection_data
    ["PbrPixelShader_glsl.frag"; "Uniform reflection:"; eye_position_line]
  = raise ValueError
  ∧ process_reflection_data_section
      ["PbrPixelShader_glsl.frag"; "Uniform reflection:"; eye_position_line]
      "Uniform reflection:"
    = parse_lines [eye_position_line] ∅.
Proof.
  apply (compile_unterminated ["PbrPixelShader_glsl.frag"] [eye_position_line]);
    by_computing.
Defined.

(** X6: whenever [compile_and_get_reflection_data] returns, its uniforms
    are what [process_reflection_data_section] returns for the heading
    [Uniform reflection:] on the same lines. *)
Theorem compile_agrees_with_process (lines : list string) (r : ReflectionData) :
  compile_and_get_reflection_data lines = ok r →
  process_reflection_data_section lines "Uniform reflection:" = ok (uniforms r).
Proof.
  unfold compile_and_get_reflection_data, process_reflection_data_section.
  intros Hrun.
  apply bind_ok in Hrun as (start & -> & Hrun).
  apply bind_ok in Hrun as (stop & Hstop & Hrun).
  apply bind_ok in Hrun as (u & Hu & Hrun).
  injection Hrun as <-. cbn [mbind result_bind ok]. rewrite Hstop. exact Hu.
Qed.

Lemma compile_agrees_with_process_witness :
  ∃ r, compile_and_get_reflection_data sample_output = ok r
       ∧ process_reflection_data_section sample_output "Uniform reflection:"
         = ok (uniforms r).
Proof.
  destruct (compile_and_get_reflection_data sample_output) as [e|r] eqn:Hrun.
  - vm_compute in Hrun. discriminate.
  - exists r. split; [reflexivity|].
    by apply (compile_agrees_with_process sample_output r).
Defined.

(** ** The dictionary of a section *)

Lemma slice_elem_of (lines : list string) (a b : nat) (line : string) :
  line ∈ slice lines a b → line ∈ lines.
Proof.
  unfold slice. intros Hin.
  apply list_elem_of_lookup in Hin as [i Hi].
  apply lookup_take_Some in Hi as [Hi _]. rewrite lookup_drop in Hi.
  by eapply list_elem_of_lookup_2.
Qed.

Lemma slice_from_elem_of (lines : list string) (a : nat) (line : string) :
  line ∈ slice_from lines a → line ∈ lines.
Proof.
  unfold slice_from. intros Hin.
  apply list_elem_of_lookup in Hin as [i Hi]. rewrite lookup_drop in Hi.
  by eapply list_elem_of_lookup_2.
Qed.

(** X7: the dictionary that [process_reflection_data_section] returns holds
    nothing of its own making: each entry is what [parse_reflection_line]
    returns for one of the input lines, filed under the name on that line. *)
Theorem reflection_entries_from_lines (lines : list string) (heading key : string)
    (m : gmap string GlslObjectReflectionData) (data : GlslObjectReflectionData) :
  process_reflection_data_section lines heading = ok m →
  m !! key = Some data →
  ∃ line, line ∈ lines ∧ parse_reflection_line line = ok data ∧ name data = key.
Proof.
  unfold process_reflection_data_section. intros Hrun Hkey.
  apply bind_ok in Hrun as (start & _ & Hrun).
  destruct (parse_lines_lookup _ _ _ _ _ Hrun Hkey)
    as [Hempty|(line & Hline & Hparse & Hname)].
  - by rewrite lookup_empty in Hempty.
  - exists line. split; [|done].
    destruct (index lines "" (start + 1)) as [e|stop].
    + by eapply slice_from_elem_of.
    + by eapply slice_elem_of.
Qed.

Lemma reflection_entries_from_lines_witness :
  let data :=
    mkGlslObjectReflectionData "type_SceneBuffer.EyePosition"
      64 35665 1 0 (-1) 16 None None None None in
  ∃ line, line ∈ sample_output
          ∧ parse_reflection_line line = ok data
          ∧ name data = "type_SceneBuffer.EyePosition".
Proof.
  intros data.
  destruct (process_reflection_data_section sample_output "Uniform reflection:")
    as [e|m] eqn:Hrun.
  - vm_compute in Hrun. discriminate.
  - apply (reflection_entries_from_lines sample_output "Uniform reflection:"
             "type_SceneBuffer.EyePosition" m data Hrun).
    vm_compute in Hrun. injection Hrun as <-. vm_compute. reflexivity.
Defined.

Lemma parse_lines_app (l1 l2 : list string)
    (ret : gmap string GlslObjectReflectionData) :
  parse_lines (l1 ++ l2) ret
  = match parse_lines l1 ret with
    | inl e => inl e
    | inr ret' => parse_lines l2 ret'
    end.
Proof.
  revert ret. induction l1 as [|line l1 IH]; intros ret; [done|].
  simpl. rewrite !parse_lines_cons.
  by destruct (parse_reflection_line line).
Qed.

(** A name that no later line carries keeps its entry. *)
Lemma parse_lines_keeps (section_lines : list string)
    (ret m : gmap string GlslObjectReflectionData) (key : string) :
  parse_lines section_lines ret = ok m →
  (∀ line data, line ∈ section_lines → parse_reflection_line line = ok data →
     name data ≠ key) →
  m !! key = ret !! key.
Proof.
  revert ret. induction section_lines as [|line ls IH]; intros ret Hrun Hfresh.
  - rewrite parse_lines_nil in Hrun. by injection Hrun as ->.
  - rewrite parse_lines_cons in Hrun.
    destruct (parse_reflection_line line) as [e|d] eqn:Hline; [done|].
    rewrite (IH _ Hrun).
    + apply lookup_insert_ne. apply (Hfresh line); [by left|done].
    + intros l d' Hl. apply Hfresh. by right.
Qed.

(** X8: when several lines of a section carry the same name, the last of
    them is the one the dictionary keeps: the entry of a name is the record
    of the last parsed line with that name. *)
Theorem parse_lines_last_wins (before after : list string) (line : string)
    (ret m : gmap string GlslObjectReflectionData)
    (data : GlslObjectReflectionData) :
  parse_lines (before ++ line :: after) ret = ok m →
  parse_reflection_line line = ok data →
  (∀ line' data', line' ∈ after → parse_reflection_line line' = ok data' →
     name data' ≠ name data) →
  m !! name data = Some data.
Proof.
  intros Hrun Hline Hafter. rewrite parse_lines_app in Hrun.
  destruct (parse_lines before ret) as [e|ret'] eqn:Hbefore; [done|].
  rewrite parse_lines_cons, Hline in Hrun.
  rewrite (parse_lines_keeps _ _ _ _ Hrun Hafter). apply lookup_insert_eq.
Qed.

Lemma parse_lines_last_wins_witness :
  ∃ m,
    parse_lines
      ["u: offset 0, type 1406, size 1, index 0, binding -1, stages 16";
       "u: offset 16, type 1406, size 1, index 0, binding -1, stages 16";
       eye_position_line] ∅
    = ok m
    ∧ m !! "u" = Some (mkGlslObjectReflectionData "u" 16 5126 1 0 (-1) 16
                         None None None None).
Proof.
  destruct (parse_lines
              ["u: offset 0, type 1406, size 1, index 0, binding -1, stages 16";
               "u: offset 16, type 1406, size 1, index 0, binding -1, stages 16";
               eye_position_line] ∅) as [e|m] eqn:Hrun.
  - vm_compute in Hrun. discriminate.
  - exists m. split; [reflexivity|].
    apply (parse_lines_last_wins
             ["u: offset 0, type 1406, size 1, index 0, binding -1, stages 16"]
             [eye_position_line]
             "u: offset 16, type 1406, size 1, index 0, binding -1, stages 16"
             ∅ m
             (mkGlslObjectReflectionData "u" 16 5126 1 0 (-1) 16
                None None None None) Hrun).
    + vm_compute. reflexivity.
    + intros line' data' Hin Hparse. apply list_elem_of_singleton in Hin as ->.
      vm_compute in Hparse. injection Hparse as <-. discriminate.
Defined.

(** X9: a line of the section that cannot be parsed makes the whole call
    raise, with the exception of the first such line: no dictionary of the
    lines before it is returned. *)
Theorem parse_lines_first_failure (good rest : list string) (bad : string)
    (e : PyExc) (ret : gmap string GlslObjectReflectionData) :
  (∀ line, line ∈ good → ∃ data, parse_reflection_line line = ok data) →
  parse_reflection_line bad = raise e →
  parse_lines (good ++ bad :: rest) ret = raise e.
Proof.
  revert ret. induction good as [|line good IH]; intros ret Hgood Hbad.
  - simpl. rewrite parse_lines_cons. by rewrite Hbad.
  - simpl. rewrite parse_lines_cons.
    destruct (Hgood line) as [d ->]; [by left|].
    apply IH; [|done]. intros l Hl. apply Hgood. by right.
Qed.

Lemma parse_lines_first_failure_witness :
  parse_lines [eye_position_line; "garbage"; light_direction_line] ∅
  = raise ValueError.
Proof.
  apply (parse_lines_first_failure [eye_position_line] [light_direction_line]
           "garbage" ValueError ∅).
  - intros line Hin. apply list_elem_of_singleton in Hin as ->.
    eexists. vm_compute. reflexivity.
  - vm_compute. reflexivity.
Defined.

(** ** Matching the offset assertions *)

Lemma take_drop_chars (k : nat) (s : string) :
  take_chars k s +:+ drop_chars k s = s.
Proof.
  revert s. induction k as [|k IH]; intros [|c s]; simpl; try done.
  rewrite string_app_cons. by f_equal.
Qed.

Lemma take_chars_run (class : ascii → bool) (k : nat) (s : string) :
  k ≤ run_length class s →
  all_of class (take_chars k s) ∧ String.length (take_chars k s) = k.
Proof.
  revert s. induction k as [|k IH]; intros s Hk.
  - destruct s; split; by try constructor.
  - destruct s as [|c s]; simpl in Hk; [lia|].
    destruct (class c) eqn:Hc; [|lia].
    destruct (IH s) as [Hall Hlen]; [lia|].
    split; simpl; [by constructor|by f_equal].
Qed.

Lemma run_length_app (class : ascii → bool) (x rest : string) :
  all_of class x →
  run_length class rest = 0 →
  run_length class (x +:+ rest) = String.length x.
Proof.
  intros Hx Hrest. induction x as [|c x IH]; [done|].
  apply Forall_cons in Hx as [Hc Hx]. rewrite string_app_cons. simpl.
  rewrite Hc. f_equal. by apply IH.
Qed.

Lemma take_chars_app (x rest : string) :
  take_chars (String.length x) (x +:+ rest) = x.
Proof.
  induction x as [|c x IH]; [by destruct rest|].
  rewrite string_app_cons. simpl. by f_equal.
Qed.

Lemma drop_chars_app (x rest : string) :
  drop_chars (String.length x) (x +:+ rest) = rest.
Proof. induction x as [|c x IH]; [by destruct rest|]. by rewrite string_app_cons. Qed.

Lemma match_here_literal (text : string) (items : list Item) (s : string)
    (groups : gmap string string) :
  match_here (Literal text :: items) s = Some groups
  ↔ ∃ s', s = text +:+ s' ∧ match_here items s' = Some groups.
Proof.
  simpl. split.
  - destruct (strip_prefix text s) as [s'|] eqn:Hp; [|done].
    intros Hrest. exists s'. split; [|done]. by apply strip_prefix_Some.
  - intros (s' & -> & Hrest). by rewrite strip_prefix_app.
Qed.

(** Whatever a group matched is a run of its class, one character at least,
    followed by a match of the rest of the pattern. *)
Lemma match_here_group (name : string) (class : ascii → bool)
    (items : list Item) (s : string) (groups : gmap string string) :
  match_here (Group name class :: items) s = Some groups →
  ∃ k rest,
    1 ≤ k ≤ run_length class s
    ∧ match_here items (drop_chars k s) = Some rest
    ∧ groups = <[name := take_chars k s]> rest.
Proof.
  cbn [match_here].
  assert (∀ n,
            (fix give_back (k : nat) : option (gmap string string) :=
               match k with
               | O => None
               | S k' =>
                   match match_here items (drop_chars k s) with
                   | Some groups => Some (<[name := take_chars k s]> groups)
                   | None => give_back k'
                   end
               end) n = Some groups →
            ∃ k rest,
              1 ≤ k ≤ n
              ∧ match_here items (drop_chars k s) = Some rest
              ∧ groups = <[name := take_chars k s]> rest) as Hgive.
  { induction n as [|n IH]; [done|].
    destruct (match_here items (drop_chars (S n) s)) as [rest|] eqn:Hrest.
    - intros [= <-]. exists (S n), rest. split; [lia|done].
    - intros Hn. destruct (IH Hn) as (k & rest & Hk & Hmatch & ->).
      exists k, rest. split; [lia|done]. }
  apply Hgive.
Qed.

(** The longest run is tried first. *)
Lemma match_here_group_greedy (name : string) (class : ascii → bool)
    (items : list Item) (s : string) (rest : gmap string string) :
  1 ≤ run_length class s →
  match_here items (drop_chars (run_length class s) s) = Some rest →
  match_here (Group name class :: items) s
  = Some (<[name := take_chars (run_length class s) s]> rest).
Proof.
  intros Hrun Hrest. cbn [match_here].
  destruct (run_length class s) as [|n]; [lia|]. by rewrite Hrest.
Qed.

Lemma search_Some (items : list Item) (line : string)
    (groups : gmap string string) :
  search items line = Some groups →
  ∃ pre rest, line = pre +:+ rest ∧ match_here items rest = Some groups.
Proof.
  induction line as [|c line IH]; simpl.
  - destruct (match_here items "") eqn:Hm; [|done].
    intros [= <-]. by exists "", "".
  - destruct (match_here items (String c line)) eqn:Hm.
    + intros [= <-]. by exists "", (String c line).
    + intros Hrest. destruct (IH Hrest) as (pre & rest & -> & Hmatch).
      by exists (String c pre), rest.
Qed.

(** A search for a pattern that starts with a literal text goes to the
    first occurrence of that text, and stops there if the rest matches. *)
Lemma search_first_occurrence (text : string) (items : list Item)
    (line pre rest : string) (groups : gmap string string) :
  find_sep text line = Some (pre, rest) →
  match_here items rest = Some groups →
  search (Literal text :: items) line = Some groups.
Proof.
  intros Hfind Hrest. revert pre Hfind.
  induction line as [|c line IH]; intros pre; cbn [find_sep search match_here].
  - destruct (strip_prefix text "") as [r|]; [|done].
    intros [= <- <-]. by rewrite Hrest.
  - destruct (strip_prefix text (String c line)) as [r|].
    + intros [= <- <-]. by rewrite Hrest.
    + destruct (find_sep text line) as [[b a]|] eqn:Hline; [|done].
      intros [= <- <-]. by apply (IH b).
Qed.

Lemma nonempty_run (class : ascii → bool) (k : nat) (s : string) :
  1 ≤ k ≤ run_length class s →
  all_of class (take_chars k s) ∧ take_chars k s ≠ "".
Proof.
  intros [Hk Hrun]. destruct (take_chars_run class k s Hrun) as [Hall Hlen].
  split; [done|]. intros Hempty. rewrite Hempty in Hlen. simpl in Hlen. lia.
Qed.

(** The shape of a line in which [_RE_OFFSET_ASSERTS] has a match. *)
Lemma offset_assert_shape (line : string) (m : gmap string string) :
  search _RE_OFFSET_ASSERTS line = Some m →
  ∃ pre post,
    line = pre +:+ "offsetof(" +:+ group m "structure_type" +:+ ", "
           +:+ group m "member_name" +:+ ") == " +:+ group m "offset"
           +:+ "," +:+ post
    ∧ all_of is_letter (group m "structure_type")
    ∧ group m "structure_type" ≠ ""
    ∧ all_of is_letter (group m "member_name")
    ∧ group m "member_name" ≠ ""
    ∧ all_of is_digit (group m "offset")
    ∧ group m "offset" ≠ "".
Proof.
  intros Hsearch.
  apply search_Some in Hsearch as (pre & rest & -> & Hmatch).
  unfold _RE_OFFSET_ASSERTS in Hmatch.
  apply match_here_literal in Hmatch as (s1 & -> & Hmatch).
  apply match_here_group in Hmatch as (k1 & g1 & Hk1 & Hmatch & ->).
  apply match_here_literal in Hmatch as (s2 & Hs1 & Hmatch).
  apply match_here_group in Hmatch as (k2 & g2 & Hk2 & Hmatch & ->).
  apply match_here_literal in Hmatch as (s3 & Hs2 & Hmatch).
  apply match_here_group in Hmatch as (k3 & g3 & Hk3 & Hmatch & ->).
  apply match_here_literal in Hmatch as (post & Hs3 & Hmatch).
  injection Hmatch as <-.
  assert (group (<["structure_type" := take_chars k1 s1]>
                   (<["member_name" := take_chars k2 s2]>
                      (<["offset" := take_chars k3 s3]> ∅)))
            "structure_type" = take_chars k1 s1) as ->
    by (unfold group; by rewrite lookup_insert_eq).
  assert (group (<["structure_type" := take_chars k1 s1]>
                   (<["member_name" := take_chars k2 s2]>
                      (<["offset" := take_chars k3 s3]> ∅)))
            "member_name" = take_chars k2 s2) as ->
    by (unfold group; rewrite lookup_insert_ne by done;
        by rewrite lookup_insert_eq).
  assert (group (<["structure_type" := take_chars k1 s1]>
                   (<["member_name" := take_chars k2 s2]>
                      (<["offset" := take_chars k3 s3]> ∅)))
            "offset" = take_chars k3 s3) as ->
    by (unfold group; rewrite !lookup_insert_ne by done;
        by rewrite lookup_insert_eq).
  destruct (nonempty_run _ _ _ Hk1) as [? ?].
  destruct (nonempty_run _ _ _ Hk2) as [? ?].
  destruct (nonempty_run _ _ _ Hk3) as [? ?].
  exists pre, post. split; [|done].
  do 2 f_equal.
  rewrite <- Hs3, take_drop_chars, <- Hs2, take_drop_chars, <- Hs1.
  by rewrite take_drop_chars.
Qed.

(** X13: what [_RE_OFFSET_ASSERTS] finds in a line is an assertion in full:
    the line holds [offsetof(], a structure name, [", "], a member name,
    [") == "], an offset and a comma, the names being one or more ASCII
    letters and the offset one or more ASCII digits, and the three groups
    of the match are those three texts. *)
Theorem search_offset_assert_sound (line : string) (m : gmap string string) :
  search _RE_OFFSET_ASSERTS line = Some m →
  ∃ pre post,
    line = pre +:+ "offsetof(" +:+ group m "structure_type" +:+ ", "
           +:+ group m "member_name" +:+ ") == " +:+ group m "offset"
           +:+ "," +:+ post
    ∧ all_of is_letter (group m "structure_type")
    ∧ group m "structure_type" ≠ ""
    ∧ all_of is_letter (group m "member_name")
    ∧ group m "member_name" ≠ ""
    ∧ all_of is_digit (group m "offset")
    ∧ group m "offset" ≠ "".
Proof. apply offset_assert_shape. Qed.

Lemma search_offset_assert_sound_witness :
  let line :=
    "static_assert(offsetof(SceneConstantBuffer, EyePosition) == 64, x);" in
  ∃ m,
    search _RE_OFFSET_ASSERTS line = Some m
    ∧ ∃ pre post,
        line = pre +:+ "offsetof(" +:+ group m "structure_type" +:+ ", "
               +:+ group m "member_name" +:+ ") == " +:+ group m "offset"
               +:+ "," +:+ post
        ∧ all_of is_letter (group m "structure_type")
        ∧ group m "structure_type" ≠ ""
        ∧ all_of is_letter (group m "member_name")
        ∧ group m "member_name" ≠ ""
        ∧ all_of is_digit (group m "offset")
        ∧ group m "offset" ≠ "".
Proof.
  intros line.
  destruct (search _RE_OFFSET_ASSERTS line) as [m|] eqn:Hsearch.
  - exists m. split; [reflexivity|].
    by apply (search_offset_assert_sound line m).
  - vm_compute in Hsearch. discriminate.
Defined.

(** Lines that do not hold [offsetof(] have no match. *)
Lemma search_offset_assert_none (line : string) :
  (∀ x y, line ≠ x +:+ "offsetof(" +:+ y) →
  search _RE_OFFSET_ASSERTS line = None.
Proof.
  intros Hno. destruct (search _RE_OFFSET_ASSERTS line) as [m|] eqn:Hsearch; [|done].
  apply offset_assert_shape in Hsearch as (pre & post & Hline & _).
  by destruct (Hno _ _ Hline).
Qed.

(** ** Reading an offset *)

Lemma is_digit_char (c : ascii) :
  is_digit c = true →
  is_space c = false
  ∧ Ascii.eqb c "_" = false
  ∧ c ≠ "-"%char ∧ c ≠ "+"%char
  ∧ ∃ d, digit_value c = Some d ∧ (0 ≤ d < 10)%Z.
Proof.
  destruct c as [[] [] [] [] [] [] [] []]; intros Hc; try discriminate Hc;
    (split; [done|]); (split; [done|]); (split; [done|]); (split; [done|]);
    eexists; (split; [reflexivity|done]).
Qed.

Lemma is_digit_int_space (c : ascii) :
  is_digit c = true → is_int_space c = false.
Proof. by destruct c as [[] [] [] [] [] [] [] []]. Qed.

Lemma lstrip_int_digits (l : list ascii) :
  Forall (λ c, is_digit c = true) l → lstrip_int l = l.
Proof.
  intros [|c l' Hc _]; [done|]. simpl. by rewrite is_digit_int_space.
Qed.

(** [int] finds no white space to pass over around a text of digits. *)
Lemma int_strip_digits (l : list ascii) :
  Forall (λ c, is_digit c = true) l →
  rev (lstrip_int (rev (lstrip_int l))) = l.
Proof.
  intros Hl. rewrite (lstrip_int_digits l) by done.
  rewrite lstrip_int_digits by (by apply Forall_rev).
  apply rev_involutive.
Qed.

Lemma count_digits_digits (l : list ascii) :
  Forall (λ c, is_digit c = true) l → count_digits l = length l.
Proof.
  unfold count_digits. induction 1 as [|c l Hc _ IH]; [done|].
  destruct (is_digit_char c Hc) as (_ & Hu & _).
  rewrite filter_cons_True by done. simpl. by f_equal.
Qed.

Lemma digits_go_digits (l : list ascii) (acc : Z) :
  Forall (λ c, is_digit c = true) l →
  (0 ≤ acc)%Z →
  ∃ v, digits_go 10 acc false l = Some v ∧ (0 ≤ v)%Z.
Proof.
  intros Hl. revert acc. induction Hl as [|c l Hc _ IH]; intros acc Hacc.
  - by exists acc.
  - destruct (is_digit_char c Hc) as (_ & Hu & _ & _ & d & Hd & Hrange).
    simpl. rewrite Hu, Hd.
    assert ((d <? 10)%Z = true) as -> by (apply Z.ltb_lt; lia).
    apply IH. lia.
Qed.

Lemma magnitude_decimal (l : list ascii) : magnitude 10 l = digits 10 l.
Proof.
  destruct l as [|c [|x l]]; try done;
    by destruct c as [[] [] [] [] [] [] [] []].
Qed.

(** One or more digits read as an integer that is not negative, unless
    there are more of them than [int] accepts. *)
Lemma int_decimal_digits (s : string) :
  all_of is_digit s → s ≠ "" →
  ∃ v, digits_go 10 0 false (list_ascii_of_string s) = Some v
       ∧ (0 ≤ v)%Z
       ∧ int s 10
         = if (int_max_str_digits <? String.length s)%nat
           then raise ValueError else ok v.
Proof.
  intros Hs Hne. unfold int, all_of in *.
  rewrite int_strip_digits by done.
  assert (String.length s = length (list_ascii_of_string s)) as ->.
  { clear. induction s as [|c s IH]; simpl; [done|]. by f_equal. }
  destruct (list_ascii_of_string s) as [|c l] eqn:Hl.
  { destruct s; [done|discriminate Hl]. }
  pose proof Hs as Hall. apply Forall_cons in Hs as [Hc Hrest].
  destruct (is_digit_char c Hc) as (_ & Hu & Hminus & Hplus & _).
  assert (match c :: l with
          | "-"%char :: l' => ((-1)%Z, l')
          | "+"%char :: l' => (1%Z, l')
          | _ => (1%Z, c :: l)
          end = (1%Z, c :: l)) as ->.
  { clear -Hminus Hplus. by destruct c as [[] [] [] [] [] [] [] []]. }
  cbn [fst snd]. rewrite magnitude_decimal. unfold digits. rewrite Hu.
  destruct (digits_go_digits (c :: l) 0 Hall) as (v & Hv & Hpos); [lia|].
  exists v. split; [done|]. split; [done|]. rewrite Hv.
  rewrite count_digits_digits by done.
  change (10 =? 10)%Z with true. cbn [andb].
  destruct (int_max_str_digits <? length (c :: l))%nat; [done|].
  unfold ok. do 2 f_equal; lia.
Qed.

(** An integer read from digits is not negative. *)
Lemma int_digits_nonneg (s : string) (v : Z) :
  all_of is_digit s → s ≠ "" → int s 10 = ok v → (0 ≤ v)%Z.
Proof.
  intros Hs Hne Hint.
  destruct (int_decimal_digits s Hs Hne) as (v' & _ & Hpos & Hread).
  rewrite Hint in Hread.
  destruct (int_max_str_digits <? String.length s)%nat; [done|].
  by injection Hread as ->.
Qed.

(** ** The offsets of the header *)

Lemma for_each_app {A X : Type} (body : A → X → result A) (l1 l2 : list X)
    (acc : A) :
  for_each body (l1 ++ l2) acc = for_each body l1 acc ≫= for_each body l2.
Proof.
  revert acc. induction l1 as [|x l1 IH]; intros acc; [done|].
  simpl. destruct (body acc x) as [e|acc']; [done|]. apply IH.
Qed.

Lemma parse_c_offsets_line_skip (ret : gmap (string * string) COffsetData)
    (line : string) :
  (∀ x y, line ≠ x +:+ "offsetof(" +:+ y) →
  parse_c_offsets_line ret line = ok ret.
Proof.
  intros Hno. unfold parse_c_offsets_line.
  by rewrite search_offset_assert_none.
Qed.

(** X14: a line that does not hold the text [offsetof(] does not count:
    with it or without it, anywhere in the header, [parse_c_offsets]
    returns the same; a header of such lines only gives the empty
    dictionary. *)
Theorem parse_c_offsets_other_lines (before after : list string) (line : string) :
  (∀ x y, line ≠ x +:+ "offsetof(" +:+ y) →
  parse_c_offsets (before ++ line :: after) = parse_c_offsets (before ++ after)
  ∧ parse_c_offsets [line] = ok ∅.
Proof.
  intros Hno. split.
  - unfold parse_c_offsets. rewrite !for_each_app.
    destruct (for_each parse_c_offsets_line before ∅) as [e|ret]; [done|].
    cbn [mbind result_bind for_each]. by rewrite parse_c_offsets_line_skip.
  - unfold parse_c_offsets. cbn [for_each].
    by rewrite parse_c_offsets_line_skip.
Qed.

Lemma parse_c_offsets_other_lines_witness :
  parse_c_offsets
    ["#pragma once";
     "static_assert(sizeof(float) == 4, x);";
     "static_assert(offsetof(SceneConstantBuffer, EyePosition) == 64, x);"]
  = parse_c_offsets
      ["#pragma once";
       "static_assert(offsetof(SceneConstantBuffer, EyePosition) == 64, x);"]
  ∧ parse_c_offsets ["static_assert(sizeof(float) == 4, x);"] = ok ∅.
Proof.
  apply (parse_c_offsets_other_lines ["#pragma once"]
           ["static_assert(offsetof(SceneConstantBuffer, EyePosition) == 64, x);"]
           "static_assert(sizeof(float) == 4, x);").
  apply find_sep_None. vm_compute. reflexivity.
Defined.

(** The match of a line whose first [offsetof(] starts an assertion. *)
Lemma search_offset_assert_first (line pre S M D post : string) :
  find_sep "offsetof(" line
  = Some (pre, S +:+ ", " +:+ M +:+ ") == " +:+ D +:+ "," +:+ post) →
  all_of is_letter S → S ≠ "" →
  all_of is_letter M → M ≠ "" →
  all_of is_digit D → D ≠ "" →
  search _RE_OFFSET_ASSERTS line
  = Some (<["structure_type" := S]>
            (<["member_name" := M]> (<["offset" := D]> ∅))).
Proof.
  intros Hfind HS HS1 HM HM1 HD HD1.
  assert (∀ x, x ≠ "" → 1 ≤ String.length x) as Hlen.
  { intros [|c x] Hx; [done|simpl; lia]. }
  unfold _RE_OFFSET_ASSERTS.
  apply (search_first_occurrence _ _ _ _ _ _ Hfind).
  pose proof (run_length_app is_letter S
                (", " +:+ M +:+ ") == " +:+ D +:+ "," +:+ post) HS eq_refl)
    as HrunS.
  pose proof (run_length_app is_letter M
                (") == " +:+ D +:+ "," +:+ post) HM eq_refl) as HrunM.
  pose proof (run_length_app is_digit D ("," +:+ post) HD eq_refl) as HrunD.
  rewrite <- (take_chars_app S (", " +:+ M +:+ ") == " +:+ D +:+ "," +:+ post))
    at 2.
  rewrite <- HrunS. apply match_here_group_greedy.
  { rewrite HrunS. by apply Hlen. }
  rewrite HrunS, drop_chars_app.
  apply match_here_literal. eexists. split; [reflexivity|].
  rewrite <- (take_chars_app M (") == " +:+ D +:+ "," +:+ post)) at 2.
  rewrite <- HrunM. apply match_here_group_greedy.
  { rewrite HrunM. by apply Hlen. }
  rewrite HrunM, drop_chars_app.
  apply match_here_literal. eexists. split; [reflexivity|].
  rewrite <- (take_chars_app D ("," +:+ post)) at 2.
  rewrite <- HrunD. apply match_here_group_greedy.
  { rewrite HrunD. by apply Hlen. }
  rewrite HrunD, drop_chars_app.
  apply match_here_literal. by exists post.
Qed.

(** X15: a line whose first [offsetof(] starts an assertion
    [offsetof(S, M) == D,] (names of letters, offset of digits) files the
    integer read from [D] under the pair [(S, M)], in place of what an
    earlier line may have filed there. *)
Theorem parse_c_offsets_assertion (before : list string)
    (m0 : gmap (string * string) COffsetData)
    (line pre S M D post : string) (v : Z) :
  parse_c_offsets before = ok m0 →
  find_sep "offsetof(" line
  = Some (pre, S +:+ ", " +:+ M +:+ ") == " +:+ D +:+ "," +:+ post) →
  all_of is_letter S → S ≠ "" →
  all_of is_letter M → M ≠ "" →
  all_of is_digit D → D ≠ "" →
  int D 10 = ok v →
  parse_c_offsets (before ++ [line])
  = ok (<[(S, M) := mkCOffsetData S M v]> m0).
Proof.
  intros Hbefore Hfind HS HS1 HM HM1 HD HD1 Hv.
  unfold parse_c_offsets in *. rewrite for_each_app, Hbefore.
  cbn [mbind result_bind for_each]. unfold parse_c_offsets_line.
  rewrite (search_offset_assert_first _ _ _ _ _ _ Hfind) by done.
  assert (group (<["structure_type" := S]>
                   (<["member_name" := M]> (<["offset" := D]> ∅)))
            "structure_type" = S) as ->
    by (unfold group; by rewrite lookup_insert_eq).
  assert (group (<["structure_type" := S]>
                   (<["member_name" := M]> (<["offset" := D]> ∅)))
            "member_name" = M) as ->
    by (unfold group; rewrite lookup_insert_ne by done;
        by rewrite lookup_insert_eq).
  assert (group (<["structure_type" := S]>
                   (<["member_name" := M]> (<["offset" := D]> ∅)))
            "offset" = D) as ->
    by (unfold group; rewrite !lookup_insert_ne by done;
        by rewrite lookup_insert_eq).
  by rewrite Hv.
Qed.

Lemma parse_c_offsets_assertion_witness :
  parse_c_offsets
    (["static_assert(offsetof(SceneConstantBuffer, EyePosition) == 60, x);"]
     ++ ["static_assert(offsetof(SceneConstantBuffer, EyePosition) == 64, x);"])
  = ok (<[("SceneConstantBuffer", "EyePosition")
          := mkCOffsetData "SceneConstantBuffer" "EyePosition" 64]>
          {[ ("SceneConstantBuffer", "EyePosition")
             := mkCOffsetData "SceneConstantBuffer" "EyePosition" 60 ]}).
Proof.
  apply (parse_c_offsets_assertion
           ["static_assert(offsetof(SceneConstantBuffer, EyePosition) == 60, x);"]
           _
           "static_assert(offsetof(SceneConstantBuffer, EyePosition) == 64, x);"
           "static_assert(" "SceneConstantBuffer" "EyePosition" "64" " x);" 64);
    try done; by repeat constructor.
Defined.

Lemma for_each_invariant {A X : Type} (P : A → Prop)
    (body : A → X → result A) (l : list X) (acc r : A) :
  P acc →
  (∀ a x a', P a → body a x = ok a' → P a') →
  for_each body l acc = ok r →
  P r.
Proof.
  intros Hacc Hstep. revert acc Hacc.
  induction l as [|x l IH]; intros acc Hacc; simpl.
  - by intros [= <-].
  - intros Hrun. apply bind_ok in Hrun as (acc' & Hbody & Hrun).
    apply (IH acc'); [|done]. by eapply Hstep.
Qed.

(** X16: every entry of the dictionary that [parse_c_offsets] returns is
    filed under its own pair of names, both of one or more ASCII letters,
    and its offset is not negative. *)
Theorem parse_c_offsets_entries (lines : list string)
    (m : gmap (string * string) COffsetData) (s_name m_name : string)
    (c : COffsetData) :
  parse_c_offsets lines = ok m →
  m !! (s_name, m_name) = Some c →
  structure_type c = s_name ∧ member_name c = m_name
  ∧ (0 ≤ offset_ c)%Z
  ∧ all_of is_letter s_name ∧ s_name ≠ ""
  ∧ all_of is_letter m_name ∧ m_name ≠ "".
Proof.
  intros Hrun.
  revert s_name m_name c.
  apply (for_each_invariant
           (λ d : gmap (string * string) COffsetData,
              ∀ s_name m_name c, d !! (s_name, m_name) = Some c →
                structure_type c = s_name ∧ member_name c = m_name
                ∧ (0 ≤ offset_ c)%Z
                ∧ all_of is_letter s_name ∧ s_name ≠ ""
                ∧ all_of is_letter m_name ∧ m_name ≠ "")
           parse_c_offsets_line lines ∅ m); [| |exact Hrun].
  - intros s_name m_name c Hc. by rewrite lookup_empty in Hc.
  - intros d line d' Hd. unfold parse_c_offsets_line.
    destruct (search _RE_OFFSET_ASSERTS line) as [g|] eqn:Hsearch.
    + apply offset_assert_shape in Hsearch
        as (_ & _ & _ & HS & HS1 & HM & HM1 & HD & HD1).
      intros Hline. apply bind_ok in Hline as (v & Hv & Hline).
      injection Hline as <-.
      pose proof (int_digits_nonneg _ _ HD HD1 Hv) as Hpos.
      intros s_name m_name c Hc.
      destruct (decide ((group g "structure_type", group g "member_name")
                        = (s_name, m_name))) as [Heq|Hne].
      * rewrite Heq, lookup_insert_eq in Hc. injection Hc as <-.
        injection Heq as <- <-. by repeat split.
      * rewrite lookup_insert_ne in Hc by done. by apply Hd.
    + by intros [= <-].
Qed.

Lemma parse_c_offsets_entries_witness :
  let c := mkCOffsetData "SceneConstantBuffer" "EyePosition" 64 in
  structure_type c = "SceneConstantBuffer" ∧ member_name c = "EyePosition"
  ∧ (0 ≤ offset_ c)%Z
  ∧ all_of is_letter "SceneConstantBuffer" ∧ "SceneConstantBuffer" ≠ ""
  ∧ all_of is_letter "EyePosition" ∧ "EyePosition" ≠ "".
Proof.
  intros c.
  apply (parse_c_offsets_entries
           ["static_assert(offsetof(SceneConstantBuffer, EyePosition) == 64, x);"]
           {[ ("SceneConstantBuffer", "EyePosition") := c ]}
           "SceneConstantBuffer" "EyePosition" c).
  - vm_compute. reflexivity.
  - vm_compute. reflexivity.
Defined.

(** ** The whole check *)

Lemma compare_glsl_and_c_returns (shader_data : ReflectionData)
    (source_data : gmap (string * string) COffsetData)
    (g cs cm : string) :
  snd (compare_glsl_and_c shader_data source_data g cs cm) = ok tt →
  (∃ u c, uniforms shader_data !! g = Some u
          ∧ source_data !! (cs, cm) = Some c
          ∧ offset u = offset_ c)
  ∧ length (fst (compare_glsl_and_c shader_data source_data g cs cm)) = 2.
Proof.
  unfold compare_glsl_and_c.
  destruct (uniforms shader_data !! g) as [u|]; [|done].
  destruct (source_data !! (cs, cm)) as [c|]; [|done].
  destruct (_GL_TYPES !! data_type u) as [ty|]; [|done].
  destruct (format_03d (offset u)) as [e|glsl_text]; [done|].
  destruct (format_03d (offset_ c)) as [e|c_text]; [done|].
  case_bool_decide as Hoff; [done|]. intros _. split; [|done].
  exists u, c. split; [done|]. split; [done|].
  destruct (decide (offset u = offset_ c)); [done|]. by destruct Hoff.
Qed.

Lemma and_then_returns (first second : printing unit) :
  snd (and_then first second) = ok tt →
  snd first = ok tt ∧ snd second = ok tt
  ∧ fst (and_then first second) = fst first ++ fst second.
Proof.
  destruct first as [printed [e|[]]], second as [printed' r]; simpl; [done|].
  by intros ->.
Qed.

(** X17: when the script runs to its end without raising, the reflection
    data and the header were both read, each of the four uniforms it names
    was found in the reflection data and its member among the C offsets,
    with equal offsets, and eight lines were printed. *)
Theorem main_returns (output_lines header_lines : list string) :
  snd (main output_lines header_lines) = ok tt →
  ∃ shader_data source_data,
    compile_and_get_reflection_data output_lines = ok shader_data
    ∧ parse_c_offsets header_lines = ok source_data
    ∧ (∀ g cm,
         (g, cm) ∈ [("type_SceneBuffer.EyePosition", "EyePosition");
                    ("type_SceneBuffer.LightDirection", "LightDirection");
                    ("type_SceneBuffer.LightColor", "LightDiffuseColor");
                    ("type_SceneBuffer.NumSpecularMipLevels",
                     "NumSpecularMipLevels")] →
         ∃ u c, uniforms shader_data !! g = Some u
                ∧ source_data !! ("SceneConstantBuffer", cm) = Some c
                ∧ offset u = offset_ c)
    ∧ length (fst (main output_lines header_lines)) = 8.
Proof.
  unfold main.
  destruct (compile_and_get_reflection_data output_lines) as [e|sd]; [done|].
  destruct (parse_c_offsets header_lines) as [e|src]; [done|].
  intros Hrun. exists sd, src. split; [done|]. split; [done|].
  apply and_then_returns in Hrun as (H1 & Hrun & ->).
  apply and_then_returns in Hrun as (H2 & Hrun & ->).
  apply and_then_returns in Hrun as (H3 & H4 & ->).
  apply compare_glsl_and_c_returns in H1 as [H1 L1].
  apply compare_glsl_and_c_returns in H2 as [H2 L2].
  apply compare_glsl_and_c_returns in H3 as [H3 L3].
  apply compare_glsl_and_c_returns in H4 as [H4 L4].
  split.
  - intros g cm Hin.
    repeat (apply elem_of_cons in Hin as [[= -> ->]|Hin]; [done|]).
    by apply elem_of_nil in Hin.
  - rewrite !length_app. lia.
Qed.

Lemma main_returns_witness :
  ∃ shader_data source_data,
    compile_and_get_reflection_data passing_output = ok shader_data
    ∧ parse_c_offsets passing_header = ok source_data
    ∧ (∀ g cm,
         (g, cm) ∈ [("type_SceneBuffer.EyePosition", "EyePosition");
                    ("type_SceneBuffer.LightDirection", "LightDirection");
                    ("type_SceneBuffer.LightColor", "LightDiffuseColor");
                    ("type_SceneBuffer.NumSpecularMipLevels",
                     "NumSpecularMipLevels")] →
         ∃ u c, uniforms shader_data !! g = Some u
                ∧ source_data !! ("SceneConstantBuffer", cm) = Some c
                ∧ offset u = offset_ c)
    ∧ length (fst (main passing_output passing_header)) = 8.
Proof.
  apply (main_returns passing_output passing_header).
  vm_compute. reflexivity.
Defined.

(** The same header against a dump that ends with the fourth uniform: the
    line before the empty line is not read, and the check raises. *)
Example main_last_uniform_unread :
  snd (main
         ["Uniform reflection:"; eye_position_line; light_direction_line;
          "type_SceneBuffer.LightColor: offset 96, type 8b51, size 1, index 0, binding -1, stages 16";
          "type_SceneBuffer.NumSpecularMipLevels: offset 108, type 1405, size 1, index 0, binding -1, stages 16";
          ""]
         passing_header)
  = raise RuntimeError.
Proof. vm_compute. reflexivity. Qed.

(** ** Printing an offset and reading it back *)

(** Evaluates the value of a digit that is a literal. *)
Ltac read_digit :=
  match goal with
  | |- context [digit_value ?c] =>
      let v := eval vm_compute in (digit_value c) in
      change (digit_value c) with v; cbn
  end.

Lemma digits_of_uint (u : Decimal.uint) :
  Forall (λ c, is_digit c = true)
    (list_ascii_of_string (NilEmpty.string_of_uint u)).
Proof. induction u; simpl; by constructor. Qed.

Lemma digits_go_uint_acc (u : Decimal.uint) (acc : positive) :
  digits_go 10 (Z.pos acc) false
    (list_ascii_of_string (NilEmpty.string_of_uint u))
  = Some (Z.pos (Pos.of_uint_acc u acc)).
Proof.
  revert acc. induction u as [|u IH|u IH|u IH|u IH|u IH|u IH|u IH|u IH|u IH|u IH];
    intros acc; [done|..];
    cbn [NilEmpty.string_of_uint list_ascii_of_string digits_go Pos.of_uint_acc];
    rewrite <- IH; cbn; read_digit; f_equal; lia.
Qed.

Lemma digits_go_uint (u : Decimal.uint) :
  digits_go 10 0 false (list_ascii_of_string (NilEmpty.string_of_uint u))
  = Some (Z.of_N (Pos.of_uint u)).
Proof.
  induction u as [|u IH|u IH|u IH|u IH|u IH|u IH|u IH|u IH|u IH|u IH];
    [done|exact IH|..];
    cbn [NilEmpty.string_of_uint list_ascii_of_string digits_go Pos.of_uint];
    cbn; read_digit; apply digits_go_uint_acc.
Qed.

Lemma digits_go_zeros (k : nat) (l : list ascii) :
  digits_go 10 0 false (repeat "0"%char k ++ l) = digits_go 10 0 false l.
Proof. induction k as [|k IH]; [done|]. cbn. read_digit. exact IH. Qed.

Lemma to_uint_not_nil (n : N) : N.to_uint n ≠ Decimal.Nil.
Proof.
  destruct n as [|p]; [done|]. apply DecimalPos.Unsigned.to_uint_nonnil.
Qed.

(** The digits of a number, zero-padded, read as that number. *)
Lemma digits_go_padded (n : N) (k : nat) :
  let l :=
    repeat "0"%char k
    ++ list_ascii_of_string (NilZero.string_of_uint (N.to_uint n)) in
  Forall (λ c, is_digit c = true) l ∧ l ≠ []
  ∧ digits_go 10 0 false l = Some (Z.of_N n).
Proof.
  intros l. unfold l, NilZero.string_of_uint.
  pose proof (to_uint_not_nil n) as Hnil.
  pose proof (DecimalN.Unsigned.of_to n) as Hback. unfold N.of_uint in Hback.
  assert (NilEmpty.string_of_uint (N.to_uint n) ≠ "") as Hne
    by (by destruct (N.to_uint n)).
  destruct (N.to_uint n) as [|u|u|u|u|u|u|u|u|u|u] eqn:Hu; [done|..];
    rewrite <- Hu in *; clear Hu.
  all: split; [apply Forall_app; split;
                 [by apply Forall_forall; intros c ->%list_elem_of_In%repeat_spec
                 |apply digits_of_uint]|].
  all: split;
    [intros Happ; apply app_eq_nil in Happ as [_ Hl];
     destruct (NilEmpty.string_of_uint (N.to_uint n)); [done|discriminate Hl]|].
  all: by rewrite digits_go_zeros, digits_go_uint, Hback.
Qed.

Lemma int_of_digit_text (s : string) (v : Z) :
  all_of is_digit s → s ≠ "" →
  String.length s ≤ int_max_str_digits →
  digits_go 10 0 false (list_ascii_of_string s) = Some v →
  int s 10 = ok v.
Proof.
  intros Hs Hne Hlen Hv.
  destruct (int_decimal_digits s Hs Hne) as (v' & Hv' & _ & ->).
  rewrite Hv in Hv'. injection Hv' as <-.
  by destruct (Nat.ltb_spec int_max_str_digits (String.length s)); [lia|].
Qed.

Lemma string_length_list (s : string) :
  String.length s = length (list_ascii_of_string s).
Proof. induction s as [|c s IH]; simpl; [done|]. by f_equal. Qed.

Lemma int_of_minus_digit_text (t : string) (v : Z) :
  all_of is_digit t → t ≠ "" →
  String.length t ≤ int_max_str_digits →
  digits_go 10 0 false (list_ascii_of_string t) = Some v →
  int ("-" +:+ t) 10 = ok (- v)%Z.
Proof.
  intros Ht Hne Hlen Hv. unfold all_of in Ht.
  rewrite string_length_list in Hlen.
  unfold int. rewrite list_ascii_of_string_app.
  change (list_ascii_of_string "-") with ["-"%char].
  change (lstrip_int (["-"%char] ++ list_ascii_of_string t))
    with (["-"%char] ++ list_ascii_of_string t).
  rewrite rev_app_distr.
  assert (lstrip_int (rev (list_ascii_of_string t) ++ rev ["-"%char])
          = rev (list_ascii_of_string t) ++ rev ["-"%char]) as ->.
  { pose proof (Forall_rev Ht) as Hrev.
    destruct (rev (list_ascii_of_string t)) as [|c r]; [done|].
    apply Forall_cons in Hrev as [Hc _]. simpl.
    by rewrite is_digit_int_space. }
  rewrite rev_app_distr, !rev_involutive.
  cbn [app fst snd]. rewrite magnitude_decimal. unfold digits.
  rewrite count_digits_digits by done.
  destruct (list_ascii_of_string t) as [|c l] eqn:Hl.
  { destruct t; [done|discriminate Hl]. }
  apply Forall_cons in Ht as [Hc _].
  destruct (is_digit_char c Hc) as (_ & -> & _).
  rewrite Hv. change (10 =? 10)%Z with true. cbn [andb].
  destruct (Nat.ltb_spec int_max_str_digits (length (c :: l))); [lia|].
  unfold ok. do 2 f_equal; lia.
Qed.

Lemma string_of_list_ascii_app (l1 l2 : list ascii) :
  string_of_list_ascii (l1 ++ l2)
  = string_of_list_ascii l1 +:+ string_of_list_ascii l2.
Proof.
  induction l1 as [|c l1 IH]; [done|]. simpl. rewrite string_app_cons.
  by f_equal.
Qed.

(** *** How many digits a number has *)

Lemma string_of_uint_length (u : Decimal.uint) :
  String.length (NilEmpty.string_of_uint u) = Decimal.nb_digits u.
Proof. induction u; simpl; by f_equal. Qed.

Lemma of_uint_acc_bounds (u : Decimal.uint) (acc : positive) :
  (Z.pos acc * 10 ^ Z.of_nat (Decimal.nb_digits u)
   ≤ Z.pos (Pos.of_uint_acc u acc)
   < (Z.pos acc + 1) * 10 ^ Z.of_nat (Decimal.nb_digits u))%Z.
Proof.
  revert acc.
  induction u as [|u IH|u IH|u IH|u IH|u IH|u IH|u IH|u IH|u IH|u IH];
    intros acc; [simpl; lia|..];
    cbn [Pos.of_uint_acc Decimal.nb_digits];
    rewrite Nat2Z.inj_succ, Z.pow_succ_r by lia;
    match goal with
    | |- context [Pos.of_uint_acc u ?a] => specialize (IH a)
    end;
    assert (0 < 10 ^ Z.of_nat (Decimal.nb_digits u))%Z
      by (apply Z.pow_pos_nonneg; lia);
    nia.
Qed.

Lemma of_uint_upper (u : Decimal.uint) :
  (Z.of_N (Pos.of_uint u) < 10 ^ Z.of_nat (Decimal.nb_digits u))%Z.
Proof.
  induction u as [|u IH|u IH|u IH|u IH|u IH|u IH|u IH|u IH|u IH|u IH];
    [simpl; lia|..];
    cbn [Pos.of_uint Decimal.nb_digits];
    rewrite Nat2Z.inj_succ, Z.pow_succ_r by lia;
    assert (0 < 10 ^ Z.of_nat (Decimal.nb_digits u))%Z
      by (apply Z.pow_pos_nonneg; lia);
    [lia|..];
    match goal with
    | |- context [Pos.of_uint_acc u ?a] =>
        pose proof (of_uint_acc_bounds u a)
    end;
    cbn [Z.of_N]; nia.
Qed.

(** A number that does not start with a zero is not small for its length. *)
Lemma of_uint_lower (u : Decimal.uint) :
  u ≠ Decimal.Nil → Decimal.nzhead u = u →
  (10 ^ (Z.of_nat (Decimal.nb_digits u) - 1) ≤ Z.of_N (Pos.of_uint u))%Z.
Proof.
  intros Hnil Hhead.
  destruct u as [|u|u|u|u|u|u|u|u|u|u]; [done|..];
    cbn [Pos.of_uint Decimal.nb_digits];
    rewrite Nat2Z.inj_succ;
    replace (Z.succ (Z.of_nat (Decimal.nb_digits u)) - 1)%Z
      with (Z.of_nat (Decimal.nb_digits u)) by lia.
  - exfalso. simpl in Hhead.
    pose proof (DecimalFacts.nb_digits_nzhead u) as Hle.
    rewrite Hhead in Hle. simpl in Hle. lia.
  - pose proof (of_uint_acc_bounds u 1). cbn [Z.of_N]. lia.
  - pose proof (of_uint_acc_bounds u 2). cbn [Z.of_N]. lia.
  - pose proof (of_uint_acc_bounds u 3). cbn [Z.of_N]. lia.
  - pose proof (of_uint_acc_bounds u 4). cbn [Z.of_N]. lia.
  - pose proof (of_uint_acc_bounds u 5). cbn [Z.of_N]. lia.
  - pose proof (of_uint_acc_bounds u 6). cbn [Z.of_N]. lia.
  - pose proof (of_uint_acc_bounds u 7). cbn [Z.of_N]. lia.
  - pose proof (of_uint_acc_bounds u 8). cbn [Z.of_N]. lia.
  - pose proof (of_uint_acc_bounds u 9). cbn [Z.of_N]. lia.
Qed.

Lemma to_uint_nzhead (p : positive) :
  Decimal.nzhead (Pos.to_uint p) = Pos.to_uint p.
Proof.
  pose proof (DecimalPos.Unsigned.to_of (Pos.to_uint p)) as Hnorm.
  rewrite DecimalPos.Unsigned.of_to in Hnorm. simpl in Hnorm.
  pose proof (DecimalPos.Unsigned.to_uint_nonzero p) as Hzero.
  unfold Decimal.unorm in Hnorm.
  destruct (Decimal.nzhead (Pos.to_uint p)); by try (symmetry; exact Hnorm).
Qed.

(** The digits of a number are at most [k] exactly when the number is
    below the [k]-th power of ten. *)
Lemma digits_at_most (n : N) (k : nat) :
  1 ≤ k →
  String.length (NilZero.string_of_uint (N.to_uint n)) ≤ k
  ↔ (Z.of_N n < 10 ^ Z.of_nat k)%Z.
Proof.
  intros Hk. destruct n as [|p].
  - simpl. split; [|lia]. intros _. apply Z.pow_pos_nonneg; lia.
  - cbn [N.to_uint]. unfold NilZero.string_of_uint.
    pose proof (DecimalPos.Unsigned.to_uint_nonnil p) as Hnil.
    pose proof (to_uint_nzhead p) as Hhead.
    pose proof (DecimalPos.Unsigned.of_to p) as Hback.
    pose proof (of_uint_upper (Pos.to_uint p)) as Hupper.
    pose proof (of_uint_lower (Pos.to_uint p) Hnil Hhead) as Hlower.
    rewrite Hback in Hupper, Hlower.
    assert (String.length
              match Pos.to_uint p with
              | Decimal.Nil => "0"
              | _ => NilEmpty.string_of_uint (Pos.to_uint p)
              end = Decimal.nb_digits (Pos.to_uint p)) as ->.
    { rewrite <- string_of_uint_length. by destruct (Pos.to_uint p). }
    split.
    + intros Hlen. eapply Z.lt_le_trans; [exact Hupper|].
      apply Z.pow_le_mono_r; lia.
    + intros Hlt.
      assert (Z.of_nat (Decimal.nb_digits (Pos.to_uint p)) - 1 < Z.of_nat k)%Z;
        [|lia].
      apply (Z.pow_lt_mono_r_iff 10); [lia|lia|]. lia.
Qed.

(** What [format_03d] prints: zeros, then the digits of the magnitude. *)
Lemma padded_text (n : N) (width : nat) :
  let digits := NilZero.string_of_uint (N.to_uint n) in
  let text :=
    string_of_list_ascii (repeat "0"%char (width - String.length digits))
    +:+ digits in
  all_of is_digit text ∧ text ≠ ""
  ∧ digits_go 10 0 false (list_ascii_of_string text) = Some (Z.of_N n)
  ∧ String.length text = (width - String.length digits) + String.length digits.
Proof.
  intros digits text.
  destruct (digits_go_padded n (width - String.length digits))
    as (Hall & Hne & Hvalue).
  assert (list_ascii_of_string text
          = repeat "0"%char (width - String.length digits)
            ++ list_ascii_of_string digits) as Hlist.
  { unfold text.
    by rewrite list_ascii_of_string_app, list_ascii_of_string_of_list_ascii. }
  unfold all_of. rewrite Hlist. split; [done|]. split; [|split; [done|]].
  - intros Hempty. apply Hne. fold digits. rewrite <- Hlist. by rewrite Hempty.
  - rewrite string_length_list, Hlist, length_app, repeat_length.
    by rewrite <- string_length_list.
Qed.

Lemma int_max_str_digits_ge_3 : 3 ≤ int_max_str_digits.
Proof. unfold int_max_str_digits. do 3 apply le_n_S. apply Nat.le_0_l. Qed.

(** A number has at most [int_max_str_digits] digits exactly when it is
    below [10 ^ 4300] in magnitude. *)
Lemma digits_printable (n : Z) :
  String.length (NilZero.string_of_uint (N.to_uint (Z.abs_N n)))
  ≤ int_max_str_digits
  ↔ (Z.abs n < 10 ^ 4300)%Z.
Proof.
  assert (1 ≤ int_max_str_digits) as Hone
    by (etrans; [|apply int_max_str_digits_ge_3]; by do 2 constructor).
  pose proof (digits_at_most (Z.abs_N n) int_max_str_digits Hone) as Hdigits.
  change (Z.of_nat int_max_str_digits) with 4300%Z in Hdigits.
  by rewrite N2Z.inj_abs_N in Hdigits.
Qed.

(** [format_03d] returns exactly for the numbers of at most
    [int_max_str_digits] digits. *)
Lemma format_03d_returns (n : Z) :
  (∃ text, format_03d n = ok text) ↔ (Z.abs n < 10 ^ 4300)%Z.
Proof.
  rewrite <- (digits_printable n). unfold format_03d.
  destruct (Nat.ltb_spec int_max_str_digits
              (String.length (NilZero.string_of_uint (N.to_uint (Z.abs_N n)))))
    as [Hlong|Hshort].
  - split; [by intros [text ?]|]. intros Hsmall.
    by apply Nat.lt_nge in Hlong.
  - split; [done|]. intros _. destruct (n <? 0)%Z; by eexists.
Qed.

Lemma format_03d_raises (n : Z) :
  (10 ^ 4300 ≤ Z.abs n)%Z → format_03d n = raise ValueError.
Proof.
  intros Hbig. unfold format_03d.
  destruct (Nat.ltb_spec int_max_str_digits
              (String.length (NilZero.string_of_uint (N.to_uint (Z.abs_N n)))))
    as [Hlong|Hshort]; [done|].
  apply digits_printable, Z.lt_nge in Hshort. by destruct Hshort.
Qed.

(** X20: an offset printed the way the script prints it, zero-padded to
    three characters, reads back with [int] as the same number, negative
    offsets included; the text has three characters at least. *)
Theorem format_03d_round_trip (n : Z) :
  (Z.abs n < 10 ^ 4300)%Z →
  ∃ text,
    format_03d n = ok text ∧ int text 10 = ok n ∧ 3 ≤ String.length text.
Proof.
  intros Hsmall. apply digits_printable in Hsmall.
  pose proof int_max_str_digits_ge_3 as Hmax.
  unfold format_03d.
  destruct (Nat.ltb_spec int_max_str_digits
              (String.length (NilZero.string_of_uint (N.to_uint (Z.abs_N n)))))
    as [Hlong|_]; [lia|].
  destruct (Z.ltb_spec n 0) as [Hneg|Hpos].
  - destruct (padded_text (Z.abs_N n) 2) as (Hall & Hne & Hvalue & Hlen).
    eexists. split; [reflexivity|]. split.
    + transitivity (ok (- Z.of_N (Z.abs_N n))%Z);
        [|unfold ok; do 2 f_equal; lia].
      apply int_of_minus_digit_text; try done. lia.
    + rewrite string_app_length. simpl String.length at 1. lia.
  - destruct (padded_text (Z.abs_N n) 3) as (Hall & Hne & Hvalue & Hlen).
    eexists. split; [reflexivity|]. split; [|lia].
    transitivity (ok (Z.of_N (Z.abs_N n)));
      [|unfold ok; do 2 f_equal; lia].
    apply int_of_digit_text; try done. lia.
Qed.

Lemma format_03d_round_trip_witness :
  (∃ text, format_03d 64 = ok text ∧ int text 10 = ok 64%Z
           ∧ 3 ≤ String.length text)
  ∧ (∃ text, format_03d (-1) = ok text ∧ int text 10 = ok (-1)%Z
             ∧ 3 ≤ String.length text).
Proof.
  split.
  - apply (format_03d_round_trip 64). by vm_compute.
  - apply (format_03d_round_trip (-1)). by vm_compute.
Defined.

(** ** Comparing a uniform with a member *)

Lemma GL_TYPES_lookup (t : Z) :
  is_Some (_GL_TYPES !! t) ↔ (t = 0x8B51 ∨ t = 0x1405 ∨ t = 0x1406)%Z.
Proof.
  unfold _GL_TYPES. split.
  - intros [ty Hty].
    destruct (decide (t = 0x8B51%Z)) as [|Hne1]; [by left|].
    rewrite lookup_insert_ne in Hty by done.
    destruct (decide (t = 0x1405%Z)) as [|Hne2]; [by right; left|].
    rewrite lookup_insert_ne in Hty by done.
    apply lookup_singleton_Some in Hty as [Ht _]. right. by right.
  - intros [-> | [-> | ->]]; by eexists.
Qed.

(** An offset is either printed or too long to print. *)
Lemma format_03d_cases (n : Z) :
  ((Z.abs n < 10 ^ 4300)%Z ∧ ∃ text, format_03d n = inr text)
  ∨ ((10 ^ 4300 ≤ Z.abs n)%Z ∧ format_03d n = inl ValueError).
Proof.
  destruct (Z.lt_ge_cases (Z.abs n) (10 ^ 4300)) as [Hsmall|Hbig].
  - left. split; [done|]. by apply format_03d_returns.
  - right. split; [done|]. by apply format_03d_raises.
Qed.

(** X10: [compare_glsl_and_c] returns normally exactly when the uniform is
    in the reflection data, the member is among the C offsets, the
    uniform's type is one of the three of [_GL_TYPES], the offset is short
    enough to be printed (below [10 ^ 4300] in magnitude), and the two
    offsets are equal. *)
Theorem compare_glsl_and_c_ok (shader_data : ReflectionData)
    (source_data : gmap (string * string) COffsetData)
    (glsl_qualified_member c_structure c_member : string) :
  snd (compare_glsl_and_c shader_data source_data glsl_qualified_member
         c_structure c_member) = ok tt
  ↔ ∃ u c,
      uniforms shader_data !! glsl_qualified_member = Some u
      ∧ source_data !! (c_structure, c_member) = Some c
      ∧ (data_type u = 0x8B51 ∨ data_type u = 0x1405 ∨ data_type u = 0x1406)%Z
      ∧ (Z.abs (offset u) < 10 ^ 4300)%Z
      ∧ offset u = offset_ c.
Proof.
  pose proof format_03d_cases as Hcases. revert Hcases.
  generalize (10 ^ 4300)%Z. intros bound Hcases.
  unfold compare_glsl_and_c. cbv zeta. split.
  - destruct (uniforms shader_data !! glsl_qualified_member) as [u|]; [|done].
    destruct (source_data !! (c_structure, c_member)) as [c|]; [|done].
    destruct (_GL_TYPES !! data_type u) as [ty|] eqn:Hty; [|done].
    destruct (Hcases (offset u)) as [[Hu [tu ->]]|[Hu ->]]; [|done].
    destruct (Hcases (offset_ c)) as [[Hc [tc ->]]|[Hc ->]]; [|done].
    case_bool_decide as Hoff; [done|]. intros _. exists u, c.
    split; [done|]. split; [done|]. split; [|split; [done|]].
    + apply GL_TYPES_lookup. by rewrite Hty.
    + destruct (decide (offset u = offset_ c)); [done|]. by destruct Hoff.
  - intros (u & c & -> & -> & Hty & Hu & Hoff).
    apply GL_TYPES_lookup in Hty as [ty ->].
    destruct (Hcases (offset u)) as [[_ [tu ->]]|[Hbig _]]; [|lia].
    rewrite <- Hoff.
    destruct (Hcases (offset u)) as [[_ [tc ->]]|[Hbig _]]; [|lia].
    by rewrite bool_decide_eq_false_2 by (by intros ?).
Qed.

(** X11: the type of the uniform is looked up before the offsets are
    compared: [compare_glsl_and_c] raises [KeyError] exactly when both
    entries are found and the type is none of the three of [_GL_TYPES],
    whether the offsets agree or not; nothing is printed then. *)
Theorem compare_glsl_and_c_unknown_type (shader_data : ReflectionData)
    (source_data : gmap (string * string) COffsetData)
    (glsl_qualified_member c_structure c_member : string) :
  let r := compare_glsl_and_c shader_data source_data glsl_qualified_member
             c_structure c_member in
  (snd r = raise KeyError
   ↔ ∃ u c,
       uniforms shader_data !! glsl_qualified_member = Some u
       ∧ source_data !! (c_structure, c_member) = Some c
       ∧ ¬ (data_type u = 0x8B51 ∨ data_type u = 0x1405
            ∨ data_type u = 0x1406)%Z)
  ∧ (snd r = raise KeyError → fst r = []).
Proof.
  unfold compare_glsl_and_c. cbv zeta. split; [split|].
  - destruct (uniforms shader_data !! glsl_qualified_member) as [u|]; [|done].
    destruct (source_data !! (c_structure, c_member)) as [c|]; [|done].
    destruct (_GL_TYPES !! data_type u) as [ty|] eqn:Hty.
    + destruct (format_03d_cases (offset u)) as [[_ [tu ->]]|[_ ->]]; [|done].
      destruct (format_03d_cases (offset_ c)) as [[_ [tc ->]]|[_ ->]]; [|done].
      by case_bool_decide.
    + intros _. exists u, c. split; [done|]. split; [done|].
      rewrite <- GL_TYPES_lookup, Hty. by intros [? ?].
  - intros (u & c & -> & -> & Hty).
    destruct (_GL_TYPES !! data_type u) as [ty|] eqn:Hlook; [|done].
    destruct Hty. apply GL_TYPES_lookup. by rewrite Hlook.
  - destruct (uniforms shader_data !! glsl_qualified_member) as [u|]; [|done].
    destruct (source_data !! (c_structure, c_member)) as [c|]; [|done].
    destruct (_GL_TYPES !! data_type u) as [ty|]; [|done].
    destruct (format_03d_cases (offset u)) as [[_ [tu ->]]|[_ ->]]; [|done].
    destruct (format_03d_cases (offset_ c)) as [[_ [tc ->]]|[_ ->]]; [|done].
    by case_bool_decide.
Qed.

(** X12: [compare_glsl_and_c] prints at most two lines, the GLSL offset
    and then the C offset. It prints both exactly when both entries are
    found, the type is known and both offsets are short enough to be
    printed (below [10 ^ 4300] in magnitude), so also before it raises
    [RuntimeError] on offsets that differ. It prints the GLSL line alone
    exactly when, of the two offsets, only the C offset is too long, and it
    raises [ValueError] then; a GLSL offset that is too long raises
    [ValueError] with nothing printed. *)
Theorem compare_glsl_and_c_prints (shader_data : ReflectionData)
    (source_data : gmap (string * string) COffsetData)
    (glsl_qualified_member c_structure c_member : string) :
  let r := compare_glsl_and_c shader_data source_data glsl_qualified_member
             c_structure c_member in
  let known (u : GlslObjectReflectionData) :=
    (data_type u = 0x8B51 ∨ data_type u = 0x1405 ∨ data_type u = 0x1406)%Z in
  length (fst r) ≤ 2
  ∧ (length (fst r) = 2
     ↔ ∃ u c,
         uniforms shader_data !! glsl_qualified_member = Some u
         ∧ source_data !! (c_structure, c_member) = Some c
         ∧ known u
         ∧ (Z.abs (offset u) < 10 ^ 4300)%Z
         ∧ (Z.abs (offset_ c) < 10 ^ 4300)%Z)
  ∧ (length (fst r) = 1
     ↔ ∃ u c,
         uniforms shader_data !! glsl_qualified_member = Some u
         ∧ source_data !! (c_structure, c_member) = Some c
         ∧ known u
         ∧ (Z.abs (offset u) < 10 ^ 4300)%Z
         ∧ (10 ^ 4300 ≤ Z.abs (offset_ c))%Z)
  ∧ (length (fst r) = 1 → snd r = raise ValueError)
  ∧ (∀ u c,
       uniforms shader_data !! glsl_qualified_member = Some u →
       source_data !! (c_structure, c_member) = Some c →
       known u →
       (10 ^ 4300 ≤ Z.abs (offset u))%Z →
       r = ([], raise ValueError))
  ∧ (∀ u c,
       uniforms shader_data !! glsl_qualified_member = Some u →
       source_data !! (c_structure, c_member) = Some c →
       known u →
       (Z.abs (offset u) < 10 ^ 4300)%Z →
       (Z.abs (offset_ c) < 10 ^ 4300)%Z →
       offset u ≠ offset_ c →
       snd r = raise RuntimeError ∧ length (fst r) = 2).
Proof.
  pose proof format_03d_cases as Hcases. revert Hcases.
  generalize (10 ^ 4300)%Z. intros bound Hcases.
  unfold compare_glsl_and_c. cbv zeta.
  destruct (uniforms shader_data !! glsl_qualified_member) as [u|].
  2: { split; [simpl; lia|].
       split; [split; [done|by intros (? & ? & ? & _)]|].
       split; [split; [done|by intros (? & ? & ? & _)]|].
       by repeat split. }
  destruct (source_data !! (c_structure, c_member)) as [c|].
  2: { split; [simpl; lia|].
       split; [split; [done|by intros (? & ? & _ & ? & _)]|].
       split; [split; [done|by intros (? & ? & _ & ? & _)]|].
       by repeat split. }
  destruct (_GL_TYPES !! data_type u) as [ty|] eqn:Hty.
  2: { assert (¬ (data_type u = 0x8B51 ∨ data_type u = 0x1405
                  ∨ data_type u = 0x1406)%Z) as Hunknown.
       { rewrite <- GL_TYPES_lookup, Hty. by intros [? ?]. }
       split; [simpl; lia|].
       split; [split; [done|by intros (? & ? & [= <-] & _ & ? & _)]|].
       split; [split; [done|by intros (? & ? & [= <-] & _ & ? & _)]|].
       split; [done|]. split; by intros ? ? [= <-] _ ?. }
  assert (is_Some (_GL_TYPES !! data_type u)) as Hknown%GL_TYPES_lookup
    by (by rewrite Hty).
  destruct (Hcases (offset u)) as [[Hu [tu ->]]|[Hu ->]].
  2: { split; [simpl; lia|].
       split; [split; [done|intros (? & ? & [= <-] & _ & _ & ? & _); lia]|].
       split; [split; [done|intros (? & ? & [= <-] & _ & _ & ? & _); lia]|].
       split; [done|]. split; [done|]. intros ? ? [= <-]. lia. }
  destruct (Hcases (offset_ c)) as [[Hc [tc ->]]|[Hc ->]].
  2: { split; [simpl; lia|].
       split; [split; [done|intros (? & ? & _ & [= <-] & _ & _ & ?); lia]|].
       split; [split; [by exists u, c|done]|].
       split; [done|]. split; [intros ? ? [= <-]; lia|].
       intros ? ? _ [= <-]. lia. }
  assert (∀ b : bool,
            length (fst (if b then
                           ([("GLSL: offset " +:+ tu +:+ " "
                              +:+ glsl_qualified_member +:+ " (datatype: "
                              +:+ ty +:+ ")")%string;
                             ("C:    offset " +:+ tc +:+ " " +:+ c_structure
                              +:+ "." +:+ c_member)%string],
                            @raise unit RuntimeError)
                         else
                           ([("GLSL: offset " +:+ tu +:+ " "
                              +:+ glsl_qualified_member +:+ " (datatype: "
                              +:+ ty +:+ ")")%string;
                             ("C:    offset " +:+ tc +:+ " " +:+ c_structure
                              +:+ "." +:+ c_member)%string],
                            ok tt))) = 2) as Hlen
    by (by intros []).
  rewrite Hlen.
  split; [done|].
  split; [split; [by exists u, c|done]|].
  split; [split; [done|intros (? & ? & [= <-] & [= <-] & _ & _ & ?); lia]|].
  split; [done|]. split; [intros ? ? [= <-]; lia|].
  intros ? ? [= <-] [= <-] _ _ _ Hoff. by rewrite bool_decide_eq_true_2.
Qed.

End CheckOffsetsFacts.

(** * Properties of the documents of a run *)

Module CheckSpecLinksDocumentsFacts.

Import CheckSpecLinksDocuments.

Lemma contains_false (sub s : string) :
  contains sub s = false ↔ ∀ x y, s ≠ x +:+ sub +:+ y.
Proof.
  unfold contains. rewrite <- CheckOffsetsFacts.find_sep_None.
  by destruct (CheckOffsets.find_sep sub s).
Qed.

(** X18: the list of documents does not depend on the order in which the
    file system yields the paths: two enumerations of the same paths give
    the same [all_docs]. *)
Theorem all_docs_order_independent (found found' : list string) :
  found ≡ₚ found' → all_docs found = all_docs found'.
Proof.
  intros Hperm. unfold all_docs.
  apply (Sorted_unique String.le); [apply Sorted_merge_sort; apply _..|].
  by rewrite !merge_sort_Permutation, Hperm.
Qed.

Lemma all_docs_order_independent_witness :
  all_docs ["sources/chapters/instance.adoc"; "sources/styleguide.adoc";
            "sources/chapters/fundamentals.adoc"]
  = all_docs ["sources/chapters/fundamentals.adoc";
              "sources/chapters/instance.adoc"; "sources/styleguide.adoc"].
Proof.
  apply (all_docs_order_independent
           ["sources/chapters/instance.adoc"; "sources/styleguide.adoc";
            "sources/chapters/fundamentals.adoc"]
           ["sources/chapters/fundamentals.adoc";
            "sources/chapters/instance.adoc"; "sources/styleguide.adoc"]).
  by_computing.
Defined.

(** X19: [all_docs] is in ascending order, and it holds exactly the paths
    found that do not have [styleguide] anywhere in them, each as often as
    it was found. *)
Theorem all_docs_sorted_filtered (found : list string) :
  Sorted String.le (all_docs found)
  ∧ all_docs found ≡ₚ filter (λ fn, contains "styleguide" fn = false) found
  ∧ ∀ fn, fn ∈ all_docs found
          ↔ fn ∈ found ∧ ∀ x y, fn ≠ x +:+ "styleguide" +:+ y.
Proof.
  unfold all_docs. split; [apply Sorted_merge_sort; apply _|].
  split; [apply merge_sort_Permutation|].
  intros fn. rewrite merge_sort_Permutation, list_elem_of_filter.
  rewrite contains_false. tauto.
Qed.

Example all_docs_sample :
  all_docs ["sources/chapters/instance.adoc"; "sources/styleguide.adoc";
            "sources/chapters/fundamentals.adoc";
            "sources/styleguide/markup.adoc"; "sources/Zzz.adoc"]
  = ["sources/Zzz.adoc"; "sources/chapters/fundamentals.adoc";
     "sources/chapters/instance.adoc"].
Proof. vm_compute. reflexivity. Qed.

End CheckSpecLinksDocumentsFacts.
